(** * resize_tfrecords_mpi.py: rank-partitioned TFRecord image resizing

    A shallow embedding of [src/resize_tfrecords_mpi.py] and the properties
    of its shard partitioning, record re-encoding and per-shard statistics.

    Layout:
    - [Py]: the Python primitives the script relies on (indexing, [int] and
      [float] arithmetic on IEEE binary64, true division, [os.path]);
    - [Proto]: the [tf.train.Example] feature map and the three
      [_xxx_feature] wrappers;
    - [Resize]: [_convert_to_example], [process_tf_record_file] and [worker]
      over a state made of the file system and the standard output;
    - [Spec]: the transformer as the specification words it;
    - the theorems. *)

From Stdlib Require Import ZArith QArith Qround Lia List Zpower Ascii String.
From Stdlib Require Import Floats.SpecFloat.
From stdpp Require Import base option list strings gmap sorting.

Local Open Scope Z_scope.

(** Byte strings ([bytes]) and text ([str]) are both lists of 8-bit
    characters: text is kept as its UTF-8 encoding, which for the ASCII
    literals of the script is the text itself. *)
Abbreviation bytes := string.

(* ===================================================================== *)
(** ** Python primitives *)
(* ===================================================================== *)

Module Py.

(** The exceptions the script can raise; none is caught anywhere. *)
Inductive exn :=
| IndexError            (* sequence index out of range *)
| ZeroDivisionError     (* division by zero *)
| ValueError            (* int64 feature value out of range, int(nan) *)
| OverflowError         (* int too large for float, int(inf) *)
| UnicodeDecodeError    (* bytes.decode() on invalid UTF-8 *)
| DecodeError           (* protobuf ParseFromString *)
| OpError               (* a TensorFlow op rejected its input *)
| NotFoundError.        (* record reader: no such file *)

(** Outcome of running a piece of the script: a value, an uncaught
    exception, or [Diverge] when the loop model has used all its fuel. *)
Inductive result (A : Type) :=
| Ok (a : A)
| Raise (e : exn)
| Diverge.
Arguments Ok {A} a.
Arguments Raise {A} e.
Arguments Diverge {A}.

(** [l[i]] for a Python int [i]: negative indices count from the end,
    anything outside [-len, len) raises IndexError. *)
Definition getitem {A} (l : list A) (i : Z) : result A :=
  let n := Z.of_nat (length l) in
  let j := if i <? 0 then i + n else i in
  if (j <? 0) || (n <=? j) then Raise IndexError
  else match l !! Z.to_nat j with
       | Some x => Ok x
       | None => Raise IndexError
       end.

(** [[x] * n]: list repetition (empty for [n <= 0]). *)
Definition list_repeat {A} (x : A) (n : Z) : list A := replicate (Z.to_nat n) x.

(** *** IEEE binary64, the Python [float] *)

Definition prec : Z := 53.
Definition emax : Z := 1024.
Abbreviation float := spec_float.

(** [float(n)] for an int: correctly rounded, ties to even; an int beyond
    the largest double raises OverflowError. *)
Definition float_of_int (n : Z) : result float :=
  match binary_normalize prec emax n 0 false with
  | S754_infinity _ => Raise OverflowError
  | f => Ok f
  end.

(** The literal [3.0]. *)
Definition float_3 : float := Eval vm_compute in binary_normalize prec emax 3 0 false.

Definition float_mul (x y : float) : float := SFmul prec emax x y.

(** [int * float]: the int is converted first, then the doubles are
    multiplied. *)
Definition int_mul_float (n : Z) (y : float) : result float :=
  match float_of_int n with
  | Ok x => Ok (float_mul x y)
  | Raise e => Raise e
  | Diverge => Diverge
  end.

(** [int(x)] for a float: truncation toward zero. *)
Definition int_of_float (x : float) : result Z :=
  match x with
  | S754_zero _ => Ok 0
  | S754_finite s m e =>
      let a := match e with
               | Z0 => Zpos m
               | Zpos p => Zpos m * 2 ^ Zpos p
               | Zneg p => Zpos m / 2 ^ Zpos p
               end in
      Ok (if s then - a else a)
  | S754_infinity _ => Raise OverflowError
  | S754_nan => Raise ValueError
  end.

(** The number of significant bits of a positive int, and the rounding
    record of a value none of whose bits has been shifted out. *)
Definition digits (p : positive) : Z := Zpos (digits2_pos p).
Definition exact (m : Z) : shr_record :=
  {| shr_m := m; shr_r := false; shr_s := false |}.

(** [a / b] on ints (true division).  The quotient is kept as the exact
    rational; the script only prints it. *)
Definition truediv (a b : Z) : result Q :=
  if b =? 0 then Raise ZeroDivisionError
  else Ok (inject_Z a / inject_Z b)%Q.

(** [x / 1000.0] and [x / 1000] on an already computed quantity. *)
Definition per_thousand (x : Q) : Q := (x / inject_Z 1000)%Q.

(** *** os.path (posixpath) *)

Definition sep : ascii := "/"%char.

(** The part of [p] after its last separator, if it has one. *)
Fixpoint after_last_sep (p : string) : option string :=
  match p with
  | EmptyString => None
  | String c r =>
      match after_last_sep r with
      | Some t => Some t
      | None => if Ascii.eqb c sep then Some r else None
      end
  end.

(** [basename(p)]: [p[p.rfind('/') + 1:]]. *)
Definition basename (p : string) : string := default p (after_last_sep p).

Fixpoint endswith_sep (p : string) : bool :=
  match p with
  | EmptyString => false
  | String c EmptyString => Ascii.eqb c sep
  | String _ r => endswith_sep r
  end.

Definition startswith_sep (p : string) : bool :=
  match p with
  | String c _ => Ascii.eqb c sep
  | EmptyString => false
  end.

(** [join(a, b)] with one component. *)
Definition join (a b : string) : string :=
  if startswith_sep b then b
  else if String.eqb a "" || endswith_sep a then a +:+ b
  else a +:+ String sep b.

(** [sorted] on a list of strings: code-unit lexicographic order. *)
Definition str_le (s1 s2 : string) : Prop := String.leb s1 s2 = true.
#[global] Instance str_le_dec s1 s2 : Decision (str_le s1 s2) :=
  decide (String.leb s1 s2 = true).
Definition sorted (l : list string) : list string := merge_sort str_le l.

End Py.
Export Py.

(* ===================================================================== *)
(** ** tf.train.Example *)
(* ===================================================================== *)

Module Proto.

(** [tf.train.Feature]: a oneof of three lists.  Reading the list of a kind
    that is not the one set yields the empty list.  A float list holds
    binary32 numbers; Python reads each as the double of the same value and
    writes that double back as the binary32 it came from, so both
    conversions are left out. *)
Inductive Feature :=
| bytes_list (value : list bytes)
| float_list (value : list float)
| int64_list (value : list Z)
| kind_not_set.

Definition bytes_list_value (f : Feature) : list bytes :=
  match f with bytes_list v => v | _ => [] end.
Definition float_list_value (f : Feature) : list float :=
  match f with float_list v => v | _ => [] end.
Definition int64_list_value (f : Feature) : list Z :=
  match f with int64_list v => v | _ => [] end.

(** [tf.train.Example]: the map [features.feature] from names to features. *)
Abbreviation Example := (gmap string Feature).

(** [example.features.feature[key]]: a key that is absent reads as the
    default (empty) feature. *)
Definition feature (example : Example) (key : string) : Feature :=
  default kind_not_set (example !! key).

Definition int64_min : Z := - 2 ^ 63.
Definition int64_max : Z := 2 ^ 63 - 1.
Definition in_int64 (v : Z) : bool := (int64_min <=? v) && (v <=? int64_max).

(** [_bytes_feature(value)]: a one-element bytes list (text is encoded as
    UTF-8 first). *)
Definition _bytes_feature (value : bytes) : Feature := bytes_list [value].

(** The argument of [_int64_feature]: an int or a list of ints. *)
Inductive int_or_list :=
| an_int (v : Z)
| a_list (v : list Z).

(** [_int64_feature(value)]: an int is wrapped in a list first; the
    protobuf constructor rejects a value outside the signed 64-bit range. *)
Definition _int64_feature (value : int_or_list) : result Feature :=
  let value := match value with an_int v => [v] | a_list v => v end in
  if forallb in_int64 value then Ok (int64_list value) else Raise ValueError.

(** [_float_feature(value)] for a list argument. *)
Definition _float_feature (value : list float) : Feature := float_list value.

End Proto.
Export Proto.

(* ===================================================================== *)
(** ** The libraries the script calls *)
(* ===================================================================== *)

(** What the script takes from protobuf, TensorFlow, the [bytes] codec and
    [glob]: each operation either yields a value or fails, and a failure is
    the exception the library raises.  The image operations are the ones of
    lines 115-129 with their fixed options ([channels=3],
    [align_corners=True], [quality=100], [chroma_downsampling=False]). *)
Class Runtime := {
  image : Type;
  ParseFromString : bytes -> option Example;
  SerializeToString : Example -> bytes;
  decode_jpeg : bytes -> option image;
  resize_images : image -> Z -> Z -> option image;
  encode_jpeg : image -> option bytes;
  bytes_decode : bytes -> option string;
  fnmatch : string -> string -> bool;
}.

(* ===================================================================== *)
(** ** The script *)
(* ===================================================================== *)

Module Resize.

(** One line of standard output, by the [print] that produced it. *)
Inductive line :=
| LineShard (rank : Z) (input output : string)                       (* l.169 *)
| LineRecord (input filename : string) (original_KB resized_KB : Q)  (* l.133 *)
| LineSummary (input : string) (image_count : Z)
              (original_KB_mean resized_KB_mean : Q).                (* l.154 *)

(** The state the script acts on: the record files, each the sequence of
    its serialized records, and what has been printed so far.  A file is
    known by one path: two spellings of the path of one file are not
    told apart from two files. *)
Record world := World {
  fs : gmap string (list bytes);
  stdout : list line;
}.

(** Computations of the script: state passing with exceptions. *)
Definition M (A : Type) : Type := world -> result A * world.

Definition ret {A} (a : A) : M A := fun w => (Ok a, w).
Definition bind {A B} (c : M A) (k : A -> M B) : M B :=
  fun w => match c w with
           | (Ok a, w') => k a w'
           | (Raise e, w') => (Raise e, w')
           | (Diverge, w') => (Diverge, w')
           end.
Definition lift {A} (r : result A) : M A := fun w => (r, w).
Definition try_op {A} (e : exn) (o : option A) : result A :=
  match o with Some a => Ok a | None => Raise e end.
Definition result_option {A} (r : result A) : option A :=
  match r with Ok a => Some a | _ => None end.
Definition rbind {A B} (r : result A) (k : A -> result B) : result B :=
  match r with
  | Ok a => k a
  | Raise e => Raise e
  | Diverge => Diverge
  end.

Notation "x <- c ;; k" := (bind c (fun x => k))
  (at level 100, c at next level, right associativity).
Notation "c ;;; k" := (bind c (fun _ => k))
  (at level 100, right associativity).
Notation "x <-! r ;; k" := (rbind r (fun x => k))
  (at level 100, r at next level, right associativity).

Definition print (l : line) : M unit :=
  fun w => (Ok tt, {| fs := fs w; stdout := stdout w ++ [l] |}).

(** [TFRecordWriter(path)]: the file is created, or emptied if it exists.
    The output directory is taken to exist and to be writable, so that the
    writer opens. *)
Definition open_writer (path : string) : M unit :=
  fun w => (Ok tt, {| fs := <[path := []]> (fs w); stdout := stdout w |}).

(** [writer.write(record)]: one record appended. *)
Definition writer_write (path : string) (record : bytes) : M unit :=
  fun w => (Ok tt, {| fs := alter (fun rs => rs ++ [record]) path (fs w);
                      stdout := stdout w |}).

(** [tf_record_iterator(path)]: a generator, so the file is opened when
    the loop asks for the first record. *)
Definition read_records (path : string) : M (list bytes) :=
  fun w => (try_op NotFoundError (fs w !! path), w).

(** [for x in xs: s = body(s, x)]. *)
Fixpoint for_each {A S} (body : S -> A -> M S) (s : S) (xs : list A) : M S :=
  match xs with
  | [] => ret s
  | x :: xs' => s' <- body s x ;; for_each body s' xs'
  end.

Definition len (b : bytes) : Z := Z.of_nat (String.length b).

Section Script.
Context {rt : Runtime}.

(** [_convert_to_example] (lines 41-78). *)
Definition _convert_to_example (filename image_buffer : bytes) (label : Z)
    (synset human : bytes) (xmin ymin xmax ymax : list float)
    (height width : Z) : result Example :=
  let colorspace := "RGB" in
  let channels := 3 in
  let image_format := "JPEG" in
  f_height <-! _int64_feature (an_int height) ;;
  f_width <-! _int64_feature (an_int width) ;;
  f_channels <-! _int64_feature (an_int channels) ;;
  f_label <-! _int64_feature (an_int label) ;;
  f_bbox_label <-! _int64_feature
                     (a_list (list_repeat label (Z.of_nat (length xmin)))) ;;
  Ok (list_to_map [
      ("image/height", f_height);
      ("image/width", f_width);
      ("image/colorspace", _bytes_feature colorspace);
      ("image/channels", f_channels);
      ("image/class/label", f_label);
      ("image/class/synset", _bytes_feature synset);
      ("image/class/text", _bytes_feature human);
      ("image/object/bbox/xmin", _float_feature xmin);
      ("image/object/bbox/xmax", _float_feature xmax);
      ("image/object/bbox/ymin", _float_feature ymin);
      ("image/object/bbox/ymax", _float_feature ymax);
      ("image/object/bbox/label", f_bbox_label);
      ("image/format", _bytes_feature image_format);
      ("image/filename", _bytes_feature (basename filename));
      ("image/encoded", _bytes_feature image_buffer)]).

(** The fields read from an input record (lines 97-107). *)
Record parsed := Parsed {
  filename : bytes;
  label : Z;
  synset : bytes;
  human : bytes;
  xmin : list float;
  ymin : list float;
  xmax : list float;
  ymax : list float;
  original_height : Z;
  original_width : Z;
  original_encoded : bytes;
}.

(** Lines 95-107: parse the record and read its fields. *)
Definition parse_record (record_string : bytes) : result parsed :=
  example <-! try_op DecodeError (ParseFromString record_string) ;;
  filename <-! getitem (bytes_list_value (feature example "image/filename")) 0 ;;
  label <-! getitem (int64_list_value (feature example "image/class/label")) 0 ;;
  synset <-! getitem (bytes_list_value (feature example "image/class/synset")) 0 ;;
  human <-! getitem (bytes_list_value (feature example "image/class/text")) 0 ;;
  let xmin := float_list_value (feature example "image/object/bbox/xmin") in
  let ymin := float_list_value (feature example "image/object/bbox/ymin") in
  let xmax := float_list_value (feature example "image/object/bbox/xmax") in
  let ymax := float_list_value (feature example "image/object/bbox/ymax") in
  original_height <-! getitem (int64_list_value (feature example "image/height")) 0 ;;
  original_width <-! getitem (int64_list_value (feature example "image/width")) 0 ;;
  original_encoded <-! getitem (bytes_list_value (feature example "image/encoded")) 0 ;;
  Ok (Parsed filename label synset human xmin ymin xmax ymax
             original_height original_width original_encoded).

(** Line 118. *)
Definition resize_factor : float := float_3.

(** Lines 119-120: [int(original * resize_factor)]. *)
Definition new_size (original : Z) : result Z :=
  x <-! int_mul_float original resize_factor ;; int_of_float x.

(** What the resizing of one image yields (lines 115-130). *)
Record resized := Resized {
  resized_encoded : bytes;
  new_height : Z;
  new_width : Z;
}.

Definition resize_image (p : parsed) : result resized :=
  image <-! try_op OpError (decode_jpeg (original_encoded p)) ;;
  new_height <-! new_size (original_height p) ;;
  new_width <-! new_size (original_width p) ;;
  resized_image <-! try_op OpError (resize_images image new_height new_width) ;;
  resized_encoded <-! try_op OpError (encode_jpeg resized_image) ;;
  Ok (Resized resized_encoded new_height new_width).

(** The running totals of a shard (lines 87-89). *)
Record totals := Totals {
  original_len_total : Z;
  resized_len_total : Z;
  image_count : Z;
}.

(** The body of the record loop (lines 92-147). *)
Definition record_step (input_tf_record_filename output_tf_record_filename : string)
    (t : totals) (record_string : bytes) : M totals :=
  let image_count := image_count t + 1 in
  p <- lift (parse_record record_string) ;;
  let original_len := len (original_encoded p) in
  let original_len_total := original_len_total t + original_len in
  r <- lift (resize_image p) ;;
  let resized_len := len (resized_encoded r) in
  let resized_len_total := resized_len_total t + resized_len in
  name <- lift (try_op UnicodeDecodeError (bytes_decode (filename p))) ;;
  print (LineRecord input_tf_record_filename name
           (per_thousand (inject_Z original_len))
           (per_thousand (inject_Z resized_len))) ;;;
  example <- lift (_convert_to_example (filename p) (resized_encoded r) (label p)
                     (synset p) (human p) (xmin p) (ymin p) (xmax p) (ymax p)
                     (new_height r) (new_width r)) ;;
  writer_write output_tf_record_filename (SerializeToString example) ;;;
  ret (Totals original_len_total resized_len_total image_count).

(** [process_tf_record_file] (lines 81-158). *)
Definition process_tf_record_file
    (input_tf_record_filename output_tf_record_filename : string) : M unit :=
  open_writer output_tf_record_filename ;;;
  records <- read_records input_tf_record_filename ;;
  t <- for_each (record_step input_tf_record_filename output_tf_record_filename)
         (Totals 0 0 0) records ;;
  original_len_mean <- lift (truediv (original_len_total t) (image_count t)) ;;
  resized_len_mean <- lift (truediv (resized_len_total t) (image_count t)) ;;
  print (LineSummary input_tf_record_filename (image_count t)
           (per_thousand original_len_mean) (per_thousand resized_len_mean)).

(** [glob(pattern)]: the paths of the files that match, in no particular
    order. *)
Definition glob (pattern : string) (w : world) : list string :=
  List.filter (fnmatch pattern) (map fst (map_to_list (fs w))).

(** The body of the shard loop (lines 167-170). *)
Definition shard_step (rank : Z) (input_tf_record_filenames : list string)
    (output_dir : string) (i : Z) : M unit :=
  input_tf_record_filename <- lift (getitem input_tf_record_filenames i) ;;
  let output_tf_record_filename :=
    join output_dir (basename input_tf_record_filename) in
  print (LineShard rank input_tf_record_filename output_tf_record_filename) ;;;
  process_tf_record_file input_tf_record_filename output_tf_record_filename.

(** The [while] loop of [worker] (lines 165-171).  Each iteration uses one
    unit of fuel; the loop yields [Diverge] when none is left. *)
Fixpoint worker_loop (fuel : nat) (rank size : Z)
    (input_tf_record_filenames : list string) (output_dir : string)
    (i : Z) : M unit :=
  let num_files := Z.of_nat (length input_tf_record_filenames) in
  if i <? num_files then
    match fuel with
    | O => lift Diverge
    | S fuel' =>
        shard_step rank input_tf_record_filenames output_dir i ;;;
        worker_loop fuel' rank size input_tf_record_filenames output_dir (i + size)
    end
  else ret tt.

(** [worker] (lines 161-171). *)
Definition worker (fuel : nat) (rank size : Z) (input_files output_dir : string)
    : M unit :=
  fun w =>
    let input_tf_record_filenames := sorted (glob input_files w) in
    worker_loop fuel rank size input_tf_record_filenames output_dir rank w.

(** The example [record_step] appends for a record, when it appends one
    (lines 95-146 without the printing). *)
Definition output_of (record_string : bytes) : result Example :=
  p <-! parse_record record_string ;;
  r <-! resize_image p ;;
  _ <-! try_op UnicodeDecodeError (bytes_decode (filename p)) ;;
  _convert_to_example (filename p) (resized_encoded r) (label p)
    (synset p) (human p) (xmin p) (ymin p) (xmax p) (ymax p)
    (new_height r) (new_width r).

End Script.

(** The shards a run has started on, oldest first: the inputs named by
    the lines that line 169 printed. *)
Definition started (out : list line) : list string :=
  omap (fun l => match l with
                 | LineShard _ input _ => Some input
                 | _ => None
                 end) out.

(** The names found at the indices [l] of the shard list. *)
Definition inputs_at (names : list string) (l : list Z) : list string :=
  omap (fun i => result_option (getitem names i)) l.

(** The successive values of [i] at which the loop of [worker] enters its
    body, for [num_files] shards (lines 165, 166 and 171 alone). *)
Fixpoint schedule (fuel : nat) (size num_files i : Z) : option (list Z) :=
  if i <? num_files then
    match fuel with
    | O => None
    | S fuel' => cons i <$> schedule fuel' size num_files (i + size)
    end
  else Some [].

End Resize.
Export Resize.

(* ===================================================================== *)
(** ** The image transformer as the specification words it *)
(* ===================================================================== *)

Module Spec.

(** "a configurable scaleFactor (default 3.0)". *)
Definition default_scaleFactor : Q := inject_Z 3.

(** "newHeight = floor(originalHeight * scaleFactor)", and the same for the
    width, for the scale factor supplied, or the default when none is. *)
Definition scaled (scaleFactor : option Q) (original : Z) : Z :=
  Qfloor (inject_Z original * default default_scaleFactor scaleFactor).

End Spec.

(* ===================================================================== *)
(** ** A small runtime and file system to run the script on *)
(* ===================================================================== *)

Module Sample.

Definition quarter : float := S754_finite false 1 (-2).
Definition half : float := S754_finite false 1 (-1).

(** An input record: a 100 x 100 image with two boxes, tagged as
    grayscale PNG with one channel. *)
Definition fox (height width : Z) (encoded : bytes) : Example :=
  list_to_map [
    ("image/height", int64_list [height]);
    ("image/width", int64_list [width]);
    ("image/colorspace", bytes_list ["Gray"]);
    ("image/channels", int64_list [1]);
    ("image/class/label", int64_list [278]);
    ("image/class/synset", bytes_list ["n02119789"]);
    ("image/class/text", bytes_list ["kit fox"]);
    ("image/object/bbox/xmin", float_list [quarter; half]);
    ("image/object/bbox/xmax", float_list [half; half]);
    ("image/object/bbox/ymin", float_list [quarter; quarter]);
    ("image/object/bbox/ymax", float_list [half; quarter]);
    ("image/object/bbox/label", int64_list [278; 278]);
    ("image/format", bytes_list ["PNG"]);
    ("image/filename", bytes_list ["train/n02119789/fox.JPEG"]);
    ("image/encoded", bytes_list [encoded])].

(** The wire format of the sample: three known records.  The third has
    a height [H] with [3 * H = 2^53 + 301]. *)
Definition parse (b : bytes) : option Example :=
  if String.eqb b "fox" then Some (fox 100 100 "JFIF:fox")
  else if String.eqb b "torn" then Some (fox 100 100 "torn bytes")
  else if String.eqb b "tall" then Some (fox 3002399751580431 100 "JFIF:fox")
  else None.

(** The [size] argument of the resize is an int32 tensor: a Python int is
    reduced to its low 32 bits, in two's complement. *)
Definition to_int32 (z : Z) : Z := (z + 2 ^ 31) mod 2 ^ 32 - 2 ^ 31.

(** The resize takes the size as int32 and wants both sides positive. *)
Definition resize (h w : Z) : option (Z * Z) :=
  if (0 <? to_int32 h) && (0 <? to_int32 w) then Some (to_int32 h, to_int32 w)
  else None.

Definition serialize (e : Example) : bytes :=
  match feature e "image/filename", feature e "image/encoded" with
  | bytes_list [f], bytes_list [b] => f +:+ "|" +:+ b
  | _, _ => "?"
  end.

Fixpoint before_star (pattern : string) : string :=
  match pattern with
  | EmptyString => EmptyString
  | String c r => if Ascii.eqb c "*" then EmptyString else String c (before_star r)
  end.

#[export] Instance runtime : Runtime := {|
  image := Z * Z;
  ParseFromString := parse;
  SerializeToString := serialize;
  decode_jpeg := fun b => if String.prefix "JFIF:" b then Some (100, 100) else None;
  resize_images := fun _ h w => resize h w;
  encode_jpeg := fun _ => Some "JFIF:resized";
  bytes_decode := Some;
  fnmatch := fun pattern path => String.prefix (before_star pattern) path;
|}.

(** Five shards; the third holds a record whose image does not decode, the
    fourth holds no record. *)
Definition disk : gmap string (list bytes) :=
  list_to_map [
    ("in/s0", ["fox"]);
    ("in/s1", ["fox"; "fox"]);
    ("in/s2", ["fox"; "torn"; "fox"]);
    ("in/s3", []);
    ("in/s4", ["fox"])].

Definition start : world := {| fs := disk; stdout := [] |}.

(** The same files once the writer of ["out/s0"] is open. *)
Definition opened : world := {| fs := <["out/s0" := []]> disk; stdout := [] |}.

End Sample.

(* ===================================================================== *)
(** ** What a run may change, and what it reports *)
(* ===================================================================== *)

Module Effects.

(** A computation respects a relation on states when the state it ends in
    is related to the one it started from, whatever its outcome. *)
Definition respects (R : world -> world -> Prop) {A} (c : M A) : Prop :=
  forall w, R w (c w).2.

(** The files of [w'] are those of [w], except perhaps at the paths that
    satisfy [mine]. *)
Definition same_files_except (mine : string -> Prop) (w w' : world) : Prop :=
  forall path, ~ mine path -> fs w' !! path = fs w !! path.

(** The file at [path], once there, is still there. *)
Definition keeps (path : string) (w w' : world) : Prop :=
  is_Some (fs w !! path) -> is_Some (fs w' !! path).

(** A computation that ends, normally or with an exception, from every
    state. *)
Definition halts {A} (c : M A) : Prop := forall w, (c w).1 <> Diverge.

(** Nothing printed is ever taken back. *)
Definition stdout_grows (w w' : world) : Prop :=
  exists extra, stdout w' = stdout w ++ extra.

(** [sum(xs)]. *)
Definition sum (xs : list Z) : Z := foldr Z.add 0 xs.

(** A separator occurs in [p]. *)
Fixpoint has_sep (p : string) : bool :=
  match p with
  | EmptyString => false
  | String c r => Ascii.eqb c sep || has_sep r
  end.

(** The seven features that lines 97-107 read with [value[0]] each have
    a first value. *)
Definition scalars_present (example : Example) : Prop :=
  bytes_list_value (feature example "image/filename") <> [] /\
  int64_list_value (feature example "image/class/label") <> [] /\
  bytes_list_value (feature example "image/class/synset") <> [] /\
  bytes_list_value (feature example "image/class/text") <> [] /\
  int64_list_value (feature example "image/height") <> [] /\
  int64_list_value (feature example "image/width") <> [] /\
  bytes_list_value (feature example "image/encoded") <> [].

Section Lengths.
Context {rt : Runtime}.

(** The sizes line 108 and line 130 measure for a record that goes
    through. *)
Definition original_len_of (record_string : bytes) : Z :=
  match parse_record record_string with
  | Ok p => len (original_encoded p)
  | _ => 0
  end.

Definition resized_len_of (record_string : bytes) : Z :=
  match parse_record record_string with
  | Ok p => match resize_image p with
            | Ok r => len (resized_encoded r)
            | _ => 0
            end
  | _ => 0
  end.

End Lengths.

End Effects.
Export Effects.

(* ===================================================================== *)
(** ** A second sample: records that lack a feature or a readable name *)
(* ===================================================================== *)

Module Sample64.

(** As [Sample.runtime], with two more records: one without any feature,
    and one whose file name is the single byte 255, which is not UTF-8. *)
Definition parse (b : bytes) : option Example :=
  if String.eqb b "bare" then Some ∅
  else if String.eqb b "odd" then
    Some (<["image/filename" := bytes_list [String (ascii_of_nat 255) EmptyString]]>
            (Sample.fox 100 100 "JFIF:fox"))
  else Sample.parse b.

Fixpoint is_ascii (b : bytes) : bool :=
  match b with
  | EmptyString => true
  | String c r => (N_of_ascii c <? 128)%N && is_ascii r
  end.

Definition runtime : Runtime := {|
  image := Z * Z;
  ParseFromString := parse;
  SerializeToString := Sample.serialize;
  decode_jpeg := fun b => if String.prefix "JFIF:" b then Some (100, 100) else None;
  resize_images := fun _ h w => Sample.resize h w;
  encode_jpeg := fun _ => Some "JFIF:resized";
  bytes_decode := fun b => if is_ascii b then Some b else None;
  fnmatch := fun pattern path => String.prefix (Sample.before_star pattern) path;
|}.

End Sample64.

(* ===================================================================== *)
(** * Properties *)
(* ===================================================================== *)

Import Sample.

(** A few runs of the definitions above. *)
Example getitem_last : getitem ["a"; "b"; "c"] (-1) = Ok "c".
Proof. reflexivity. Qed.
Example getitem_out_of_range : getitem ["a"; "b"; "c"] 3 = Raise IndexError.
Proof. reflexivity. Qed.
Example basename_shard :
  basename "/data/train-00001-of-01024" = "train-00001-of-01024".
Proof. reflexivity. Qed.
Example join_output : join "/out" "train-0" = "/out/train-0".
Proof. reflexivity. Qed.
Example sorted_names : sorted ["in/b"; "in/a"; "in/c"] = ["in/a"; "in/b"; "in/c"].
Proof. vm_compute. reflexivity. Qed.
Example new_size_100 : new_size 100 = Ok 300.
Proof. vm_compute. reflexivity. Qed.

(* ===================================================================== *)
(** ** Exact products on binary64 *)
(* ===================================================================== *)

Section FloatExact.

Lemma digits_bounds p : 2 ^ (digits p - 1) <= Zpos p < 2 ^ digits p.
Proof.
  unfold digits. induction p as [p IH | p IH |]; simpl digits2_pos.
  - rewrite Pos2Z.inj_succ, Z.pow_succ_r by lia.
    replace (Z.succ (Zpos (digits2_pos p)) - 1) with (Z.succ (Zpos (digits2_pos p) - 1)) by lia.
    rewrite Z.pow_succ_r by lia. lia.
  - rewrite Pos2Z.inj_succ, Z.pow_succ_r by lia.
    replace (Z.succ (Zpos (digits2_pos p)) - 1) with (Z.succ (Zpos (digits2_pos p) - 1)) by lia.
    rewrite Z.pow_succ_r by lia. lia.
  - simpl. lia.
Qed.

Lemma digits_unique p d : 2 ^ (d - 1) <= Zpos p < 2 ^ d -> digits p = d.
Proof.
  intros [Hlo Hhi]. pose proof (digits_bounds p) as [Hlo' Hhi'].
  assert (Hd : 0 < digits p) by (unfold digits; lia).
  destruct (Z.lt_trichotomy (digits p) d) as [Hlt | [Heq | Hgt]]; [| exact Heq |].
  - exfalso. assert (2 ^ digits p <= 2 ^ (d - 1)) by (apply Z.pow_le_mono_r; lia). lia.
  - exfalso. assert (0 <= d \/ d < 0) as [Hd0 | Hd0] by lia.
    + assert (2 ^ d <= 2 ^ (digits p - 1)) by (apply Z.pow_le_mono_r; lia). lia.
    + rewrite (Z.pow_neg_r 2 d) in Hhi by lia. lia.
Qed.

Lemma digits_shift p q k :
  0 <= k -> Zpos q = Zpos p * 2 ^ k -> digits q = digits p + k.
Proof.
  intros Hk Hq. apply digits_unique. rewrite Hq.
  pose proof (digits_bounds p) as [Hlo Hhi].
  assert (Hd : 0 < digits p) by (unfold digits; lia).
  replace (digits p + k - 1) with ((digits p - 1) + k) by lia.
  rewrite !Z.pow_add_r by lia.
  assert (0 < 2 ^ k) by (apply Z.pow_pos_nonneg; lia). nia.
Qed.

Lemma iter_xO_pow2 p n : Zpos (Pos.iter xO p n) = Zpos p * 2 ^ Zpos n.
Proof.
  change (Pos.iter xO p n) with (shift_pos n p).
  rewrite shift_pos_correct, Zpower_pos_powerRZ || rewrite shift_pos_correct.
  rewrite Z.pow_pos_fold. lia.
Qed.

Lemma shr_1_even p : shr_1 (exact (Zpos p~0)) = exact (Zpos p).
Proof. reflexivity. Qed.

(** Shifting out [n] zero bits loses nothing. *)
Lemma shr_exact n : forall m q,
  Zpos q = Zpos m * 2 ^ Zpos n ->
  SpecFloat.iter_pos shr_1 n (exact (Zpos q)) = exact (Zpos m).
Proof.
  induction n as [n IH | n IH |]; intros m q Hq; cbn [SpecFloat.iter_pos].
  - replace (Zpos n~1) with (Z.succ (2 * Zpos n)) in Hq by lia.
    rewrite Z.pow_succ_r, Z.pow_twice_r in Hq by lia.
    pose proof (iter_xO_pow2 m n) as Hr. set (r := Pos.iter xO m n) in Hr.
    pose proof (iter_xO_pow2 r n) as Hr2. set (r2 := Pos.iter xO r n) in Hr2.
    assert (Hq2 : Zpos q = 2 * Zpos r2) by (rewrite Hr2, Hr, Hq; ring).
    assert (q = r2~0)%positive as -> by lia.
    change (shr_1 (exact (Zpos r2~0))) with (exact (Zpos r2)).
    rewrite (IH r r2 Hr2). apply IH, Hr.
  - replace (Zpos n~0) with (2 * Zpos n) in Hq by lia.
    rewrite Z.pow_twice_r in Hq.
    pose proof (iter_xO_pow2 m n) as Hr. set (r := Pos.iter xO m n) in Hr.
    rewrite (IH r q) by (rewrite Hr, Hq; ring). apply IH, Hr.
  - rewrite Z.pow_1_r in Hq. assert (q = m~0)%positive as -> by lia. reflexivity.
Qed.

(** A product whose significand fits the 53 bits is not rounded. *)
Lemma round_aux_exact s q m k e :
  Zpos q = Zpos m * 2 ^ k -> digits m = 53 -> 0 <= k ->
  -1074 <= e + k <= 971 ->
  binary_round_aux prec emax s (Zpos q) e loc_Exact = S754_finite s m (e + k).
Proof.
  intros Hq Hm Hk He.
  pose proof (digits_shift m q k Hk Hq) as Hdq.
  unfold binary_round_aux, shr_fexp, fexp, emin, prec, emax.
  change (Zdigits2 (Zpos q)) with (digits q). rewrite Hdq, Hm.
  replace (Z.max (53 + k + e - 53) (3 - 1024 - 53) - e) with k by lia.
  assert (Hshr : shr (shr_record_of_loc (Zpos q) loc_Exact) e k = (exact (Zpos m), e + k)).
  { destruct k as [| pk | pk]; try lia.
    - simpl. unfold exact. do 2 f_equal; lia.
    - simpl shr. f_equal. apply shr_exact. exact Hq. }
  rewrite Hshr. cbn [shr_m exact loc_of_shr_record round_nearest_even].
  change (Zdigits2 (Zpos m)) with (digits m). rewrite Hm.
  replace (Z.max (53 + (e + k) - 53) (3 - 1024 - 53) - (e + k)) with 0 by lia.
  cbn [shr shr_record_of_loc shr_m].
  destruct (Z.leb_spec (e + k) (1024 - 53)); [reflexivity | lia].
Qed.

(** Every positive int of at most 53 bits is a double: [float] returns it
    unchanged, with a full-width significand. *)
Lemma float_of_int_exact p :
  digits p <= 53 ->
  exists m, float_of_int (Zpos p) = Ok (S754_finite false m (digits p - 53))
            /\ Zpos m = Zpos p * 2 ^ (53 - digits p) /\ digits m = 53.
Proof.
  intros Hd. unfold float_of_int, binary_normalize, binary_round, shl_align.
  change (Zpos (digits2_pos p)) with (digits p).
  assert (Hd0 : 0 < digits p) by (unfold digits; lia).
  assert (Hfexp : fexp prec emax (digits p + 0) = digits p - 53)
    by (unfold fexp, emin, prec, emax; lia).
  rewrite Hfexp. replace (digits p - 53 - 0) with (digits p - 53) by lia.
  destruct (digits p - 53) as [| n | n] eqn:Hn; try lia.
  - exists p.
    rewrite (round_aux_exact false p p 0 0) by (rewrite ?Z.pow_0_r; lia).
    split; [reflexivity |]. replace (53 - digits p) with 0 by lia.
    rewrite Z.pow_0_r. lia.
  - exists (Pos.iter xO p n).
    assert (Hm : Zpos (Pos.iter xO p n) = Zpos p * 2 ^ (53 - digits p)).
    { rewrite iter_xO_pow2. do 2 f_equal. lia. }
    assert (Hdm : digits (Pos.iter xO p n) = 53).
    { rewrite (digits_shift p _ (53 - digits p)) by (lia || exact Hm). lia. }
    rewrite (round_aux_exact false _ (Pos.iter xO p n) 0 (Z.neg n))
      by (rewrite ?Z.pow_0_r; lia).
    rewrite Z.add_0_r. auto.
Qed.

(** Tripling an int whose triple is below [2^53] is exact. *)
Lemma new_size_exact (original : Z) :
  0 <= original -> 3 * original < 2 ^ 53 -> new_size original = Ok (3 * original).
Proof.
  intros H0 H3. destruct original as [| p | p]; [reflexivity | | lia].
  assert (Hdp : digits p <= 52).
  { pose proof (digits_bounds p) as [Hlo _].
    destruct (Z.le_gt_cases (digits p) 52) as [Hle | Hgt]; [exact Hle | exfalso].
    assert (2 ^ 52 <= 2 ^ (digits p - 1)) by (apply Z.pow_le_mono_r; lia). lia. }
  destruct (float_of_int_exact p) as (m & Hf & Hm & Hdm); [lia |].
  unfold new_size, int_mul_float. rewrite Hf. cbn [rbind].
  unfold float_mul, resize_factor, float_3, SFmul. cbn [xorb].
  set (t := (3 * p)%positive).
  assert (Ht : Zpos t = 3 * Zpos p) by (unfold t; lia).
  assert (Hdt : digits t <= 53).
  { pose proof (digits_bounds t) as [Hlo _].
    destruct (Z.le_gt_cases (digits t) 53) as [Hle | Hgt]; [exact Hle | exfalso].
    assert (2 ^ 53 <= 2 ^ (digits t - 1)) by (apply Z.pow_le_mono_r; lia). lia. }
  assert (Hdt0 : digits p < digits t).
  { pose proof (digits_bounds t) as [_ Hhi]. pose proof (digits_bounds p) as [Hlo _].
    destruct (Z.lt_ge_cases (digits p) (digits t)) as [Hlt | Hge]; [exact Hlt | exfalso].
    assert (0 < digits t) by (unfold digits; lia).
    assert (2 ^ digits t <= 2 ^ (digits p - 1) * 2).
    { replace (2 ^ (digits p - 1) * 2) with (2 ^ digits p).
      - apply Z.pow_le_mono_r; lia.
      - replace (digits p) with (Z.succ (digits p - 1)) at 1 by lia.
        rewrite Z.pow_succ_r by lia. lia. }
    lia. }
  destruct (float_of_int_exact t Hdt) as (M & _ & HM & HdM).
  assert (Hprod : Zpos (m * 6755399441055744) = Zpos M * 2 ^ (51 + digits t - digits p)).
  { rewrite Pos2Z.inj_mul, Hm, HM, Ht.
    change (Zpos 6755399441055744) with (3 * 2 ^ 51).
    replace (53 - digits p) with ((53 - digits t) + (digits t - digits p)) by lia.
    replace (51 + digits t - digits p) with ((digits t - digits p) + 51) by lia.
    rewrite !Z.pow_add_r by lia. ring. }
  rewrite (round_aux_exact false _ M (51 + digits t - digits p)) by (exact Hprod || exact HdM || (unfold digits in *; lia)).
  replace (digits p - 53 + -51 + (51 + digits t - digits p)) with (digits t - 53) by lia.
  unfold int_of_float. f_equal.
  destruct (digits t - 53) as [| n | n] eqn:Hn; try lia.
  - rewrite HM, Ht. replace (53 - digits t) with 0 by lia. rewrite Z.pow_0_r. lia.
  - rewrite HM, Ht. replace (53 - digits t) with (Zpos n) by lia.
    rewrite Z.div_mul; [lia |]. apply Z.pow_nonzero; lia.
Qed.

End FloatExact.

(* ===================================================================== *)
(** ** The shard loop *)
(* ===================================================================== *)

Lemma sorted_length (l : list string) : length (sorted l) = length l.
Proof. unfold sorted. apply Permutation_length, merge_sort_Permutation. Qed.

Lemma sorted_elem_of (l : list string) (x : string) : x ∈ sorted l <-> x ∈ l.
Proof. unfold sorted. by rewrite merge_sort_Permutation. Qed.

Lemma str_le_total : Total str_le.
Proof.
  intros x y. unfold str_le. destruct (String.leb_total x y); auto.
Qed.

Lemma sorted_Sorted (l : list string) : Sorted str_le (sorted l).
Proof. unfold sorted. apply (Sorted_merge_sort str_le (Total0 := str_le_total)). Qed.

(** With [size >= 1] the loop started at [i] ends within [num_files - i]
    iterations, and visits exactly [i], [i + size], [i + 2 * size], ...
    below [num_files]. *)
Lemma schedule_spec (size num_files : Z) (Hsize : 1 <= size) :
  forall (fuel : nat) (i : Z),
    num_files - i <= Z.of_nat fuel ->
    exists l, schedule fuel size num_files i = Some l /\
      forall j, j ∈ l <-> j < num_files /\ exists k, 0 <= k /\ j = i + k * size.
Proof.
  induction fuel as [| fuel IH]; intros i Hfuel; cbn [schedule].
  - destruct (Z.ltb_spec i num_files) as [Hlt | Hge]; [lia |].
    exists []. split; [reflexivity |]. intros j. split.
    + intros Hin. inversion Hin.
    + intros (Hj & k & Hk & ->). nia.
  - destruct (Z.ltb_spec i num_files) as [Hlt | Hge].
    + destruct (IH (i + size)) as (l & -> & Hl); [lia |].
      exists (i :: l). split; [reflexivity |]. intros j.
      rewrite elem_of_cons, Hl. split.
      * intros [-> | (Hj & k & Hk & ->)].
        -- split; [lia |]. exists 0. lia.
        -- split; [lia |]. exists (k + 1). lia.
      * intros (Hj & k & Hk & ->).
        destruct (Z.eq_dec k 0) as [-> | Hk0]; [left; lia | right].
        split; [lia |]. exists (k - 1). lia.
    + exists []. split; [reflexivity |]. intros j. split.
      * intros Hin. inversion Hin.
      * intros (Hj & k & Hk & ->). nia.
Qed.

(** The loop of [worker] runs the shard body over its schedule, in order. *)
Lemma worker_loop_schedule {rt : Runtime} (rank size : Z) (names : list string)
    (output_dir : string) :
  forall (fuel : nat) (i : Z) (l : list Z) (w : world),
    schedule fuel size (Z.of_nat (length names)) i = Some l ->
    worker_loop fuel rank size names output_dir i w =
    for_each (fun _ j => shard_step rank names output_dir j) tt l w.
Proof.
  induction fuel as [| fuel IH]; intros i l w; cbn [schedule worker_loop].
  - destruct (i <? Z.of_nat (length names)); [discriminate |].
    intros [= <-]. reflexivity.
  - destruct (i <? Z.of_nat (length names)).
    + destruct (schedule fuel size _ (i + size)) as [l' |] eqn:Hl'; [| discriminate].
      intros [= <-]. cbn [for_each]. unfold bind.
      destruct (shard_step rank names output_dir i w) as [[[] | e |] w']; auto.
    + intros [= <-]. reflexivity.
Qed.

(** With [size >= 1] and a rank that is not negative, as many units of
    fuel as there are shards are enough: [worker] runs the shard body over
    its schedule and the loop model is never out of fuel. *)
Lemma worker_runs_schedule {rt : Runtime} (rank size : Z)
    (input_files output_dir : string) (w : world) :
  1 <= size -> 0 <= rank ->
  exists l,
    schedule (length (glob input_files w)) size
      (Z.of_nat (length (glob input_files w))) rank = Some l /\
    worker (length (glob input_files w)) rank size input_files output_dir w =
    for_each (fun _ j => shard_step rank (sorted (glob input_files w)) output_dir j)
      tt l w.
Proof.
  intros Hsize Hrank.
  destruct (schedule_spec size (Z.of_nat (length (glob input_files w))) Hsize
              (length (glob input_files w)) rank) as (l & Hl & _); [lia |].
  exists l. split; [exact Hl |]. unfold worker.
  apply worker_loop_schedule. rewrite sorted_length. exact Hl.
Qed.

(** C10. A worker whose rank is at least the number of shards matching the
    input pattern never enters the loop body: it returns normally, and
    neither the files nor the standard output have changed.  This holds for
    any group size and any amount of fuel. *)
Theorem worker_beyond_shards_is_idle {rt : Runtime} (fuel : nat) (rank size : Z)
    (input_files output_dir : string) (w : world) :
  Z.of_nat (length (glob input_files w)) <= rank ->
  worker fuel rank size input_files output_dir w = (Ok tt, w).
Proof.
  intros Hrank. unfold worker.
  destruct fuel; cbn [worker_loop]; rewrite sorted_length;
    destruct (Z.ltb_spec rank (Z.of_nat (length (glob input_files w)))); (lia || reflexivity).
Qed.

Lemma worker_beyond_shards_is_idle_witness :
  Z.of_nat (length (glob "in/*" Sample.start)) <= 7 /\
  worker 10 7 2 "in/*" "out" Sample.start = (Ok tt, Sample.start).
Proof.
  split.
  - vm_compute. discriminate.
  - apply worker_beyond_shards_is_idle. vm_compute. discriminate.
Defined.

(** C1. For the sorted list of the [N] shards that match the input
    pattern and a group of [size >= 1] workers, the worker of each rank
    [0 <= rank < size] ends and runs the shard body at the indices
    [rank + k * size] below [N], in ascending order, and at no other index;
    the index sets of two different ranks are disjoint, and every index of
    [0 .. N-1] belongs to the set of some rank. *)
Theorem partition_is_disjoint_cover {rt : Runtime} (input_files output_dir : string)
    (w : world) (size : Z) :
  1 <= size ->
  exists assigned : Z -> list Z,
    (forall rank, 0 <= rank < size ->
       worker (length (glob input_files w)) rank size input_files output_dir w
         = for_each
             (fun _ i => shard_step rank (sorted (glob input_files w)) output_dir i)
             tt (assigned rank) w /\
       schedule (length (glob input_files w)) size
         (Z.of_nat (length (glob input_files w))) rank = Some (assigned rank) /\
       forall i, i ∈ assigned rank <->
                 (0 <= i < Z.of_nat (length (glob input_files w)) /\
                  exists k, 0 <= k /\ i = rank + k * size)) /\
    (forall r1 r2 i, 0 <= r1 < size -> 0 <= r2 < size ->
       i ∈ assigned r1 -> i ∈ assigned r2 -> r1 = r2) /\
    (forall i, 0 <= i < Z.of_nat (length (glob input_files w)) ->
       exists rank, 0 <= rank < size /\ i ∈ assigned rank).
Proof.
  intros Hsize. set (n := length (glob input_files w)). set (N := Z.of_nat n).
  set (assigned := fun rank => default [] (schedule n size N rank)).
  assert (Hspec : forall rank, 0 <= rank < size ->
     schedule n size N rank = Some (assigned rank) /\
     forall i, i ∈ assigned rank <->
               (0 <= i < N /\ exists k, 0 <= k /\ i = rank + k * size)).
  { intros rank Hrank. unfold assigned.
    destruct (schedule_spec size N Hsize n rank) as (l & -> & Hl);
      [unfold N; lia |].
    split; [reflexivity |]. intros i. cbn [default]. rewrite Hl. split.
    - intros (Hi & k & Hk & ->). split; [nia | eauto].
    - intros ((_ & Hi) & Hk). auto. }
  exists assigned. split; [| split].
  - intros rank Hrank. destruct (Hspec rank Hrank) as (Hsched & Hmem).
    split; [| split; assumption].
    unfold worker. apply worker_loop_schedule.
    rewrite sorted_length. exact Hsched.
  - intros r1 r2 i Hr1 Hr2 Hi1 Hi2.
    apply (Hspec r1 Hr1) in Hi1 as (_ & k1 & Hk1 & Hi1).
    apply (Hspec r2 Hr2) in Hi2 as (_ & k2 & Hk2 & Hi2).
    assert (Hmod1 : i mod size = r1) by (subst i; rewrite Z.mod_add, Z.mod_small; lia).
    assert (Hmod2 : i mod size = r2)
      by (rewrite Hi2 at 1; rewrite Z.mod_add, Z.mod_small; lia).
    lia.
  - intros i Hi. exists (i mod size).
    assert (Hmod : 0 <= i mod size < size) by (apply Z.mod_pos_bound; lia).
    split; [exact Hmod |]. apply (Hspec _ Hmod). split; [exact Hi |].
    exists (i / size). split; [apply Z.div_pos; lia |].
    rewrite (Z.div_mod i size) at 1 by lia. lia.
Qed.

Lemma partition_is_disjoint_cover_witness :
  1 <= 2 /\
  exists assigned : Z -> list Z,
    (forall rank, 0 <= rank < 2 ->
       worker 5 rank 2 "in/*" "out" Sample.start
         = for_each
             (fun _ i => shard_step rank (sorted (glob "in/*" Sample.start)) "out" i)
             tt (assigned rank) Sample.start /\
       schedule 5 2 5 rank = Some (assigned rank) /\
       forall i, i ∈ assigned rank <->
                 (0 <= i < 5 /\ exists k, 0 <= k /\ i = rank + k * 2)) /\
    (forall r1 r2 i, 0 <= r1 < 2 -> 0 <= r2 < 2 ->
       i ∈ assigned r1 -> i ∈ assigned r2 -> r1 = r2) /\
    (forall i, 0 <= i < 5 -> exists rank, 0 <= rank < 2 /\ i ∈ assigned rank).
Proof.
  split; [lia |].
  assert (Hlen : length (glob (rt := Sample.runtime) "in/*" Sample.start) = 5%nat)
    by (vm_compute; reflexivity).
  pose proof (partition_is_disjoint_cover (rt := Sample.runtime)
                "in/*" "out" Sample.start 2 ltac:(lia)) as Hpart.
  rewrite Hlen in Hpart. exact Hpart.
Defined.

(** The example of the specification: five shards and two workers. *)
Example partition_example :
  schedule 5 2 5 0 = Some [0; 2; 4] /\ schedule 5 2 5 1 = Some [1; 3].
Proof. split; reflexivity. Qed.

(* ===================================================================== *)
(** ** One record *)
(* ===================================================================== *)

Section Record.
Context {rt : Runtime}.

(** The features of an example built by [_convert_to_example]. *)
Lemma convert_inv filename image_buffer label synset human xmin ymin xmax ymax
    height width (example : Example) :
  _convert_to_example filename image_buffer label synset human
    xmin ymin xmax ymax height width = Ok example ->
  example = list_to_map [
      ("image/height", int64_list [height]);
      ("image/width", int64_list [width]);
      ("image/colorspace", bytes_list ["RGB"]);
      ("image/channels", int64_list [3]);
      ("image/class/label", int64_list [label]);
      ("image/class/synset", bytes_list [synset]);
      ("image/class/text", bytes_list [human]);
      ("image/object/bbox/xmin", float_list xmin);
      ("image/object/bbox/xmax", float_list xmax);
      ("image/object/bbox/ymin", float_list ymin);
      ("image/object/bbox/ymax", float_list ymax);
      ("image/object/bbox/label",
         int64_list (list_repeat label (Z.of_nat (length xmin))));
      ("image/format", bytes_list ["JPEG"]);
      ("image/filename", bytes_list [basename filename]);
      ("image/encoded", bytes_list [image_buffer])].
Proof.
  unfold _convert_to_example, _int64_feature.
  repeat match goal with
         | |- context [forallb ?f ?l] => destruct (forallb f l)
         end; cbn [rbind]; try discriminate.
  intros [= <-]. reflexivity.
Qed.

(** A record step that succeeds has parsed the record, resized its image,
    printed one line and appended one example to the output file. *)
Lemma record_step_inv input output t record_string w t' w' :
  record_step input output t record_string w = (Ok t', w') ->
  exists p r name example,
    parse_record record_string = Ok p /\
    resize_image p = Ok r /\
    bytes_decode (filename p) = Some name /\
    _convert_to_example (filename p) (resized_encoded r) (label p) (synset p)
      (human p) (xmin p) (ymin p) (xmax p) (ymax p)
      (new_height r) (new_width r) = Ok example /\
    fs w' = alter (fun rs => rs ++ [SerializeToString example]) output (fs w) /\
    stdout w' = stdout w ++
      [LineRecord input name (per_thousand (inject_Z (len (original_encoded p))))
         (per_thousand (inject_Z (len (resized_encoded r))))] /\
    t' = Totals (original_len_total t + len (original_encoded p))
                (resized_len_total t + len (resized_encoded r))
                (image_count t + 1).
Proof.
  unfold record_step, bind, lift, print, writer_write, ret.
  destruct (parse_record record_string) as [p | |] eqn:Hp; try discriminate.
  destruct (resize_image p) as [r | |] eqn:Hr; try discriminate.
  destruct (bytes_decode (filename p)) as [name |] eqn:Hname; cbn [try_op];
    try discriminate.
  destruct (_convert_to_example _ _ _ _ _ _ _ _ _ _ _) as [example | |] eqn:Hex;
    try discriminate.
  intros [= <- <-]. exists p, r, name, example. cbn [fs stdout].
  repeat split; (reflexivity || assumption).
Qed.

(** The fields of a parsed record are those of the parsed example. *)
Lemma parse_record_inv record_string p :
  parse_record record_string = Ok p ->
  exists example,
    ParseFromString record_string = Some example /\
    xmin p = float_list_value (feature example "image/object/bbox/xmin") /\
    ymin p = float_list_value (feature example "image/object/bbox/ymin") /\
    xmax p = float_list_value (feature example "image/object/bbox/xmax") /\
    ymax p = float_list_value (feature example "image/object/bbox/ymax") /\
    getitem (int64_list_value (feature example "image/height")) 0
      = Ok (original_height p) /\
    getitem (int64_list_value (feature example "image/width")) 0
      = Ok (original_width p) /\
    getitem (bytes_list_value (feature example "image/encoded")) 0
      = Ok (original_encoded p).
Proof.
  unfold parse_record.
  destruct (ParseFromString record_string) as [example |] eqn:Hparse;
    cbn [try_op rbind]; [| discriminate].
  repeat match goal with
         | |- context [rbind (getitem ?l 0) _] =>
             let E := fresh "E" in
             destruct (getitem l 0) eqn:E; cbn [rbind]; try discriminate
         end.
  intros [= <-]. exists example. cbn.
  repeat split; (reflexivity || assumption).
Qed.

Lemma resize_image_inv p r :
  resize_image p = Ok r ->
  new_size (original_height p) = Ok (new_height r) /\
  new_size (original_width p) = Ok (new_width r) /\
  exists image resized_image,
    decode_jpeg (original_encoded p) = Some image /\
    resize_images image (new_height r) (new_width r) = Some resized_image /\
    encode_jpeg resized_image = Some (resized_encoded r).
Proof.
  unfold resize_image.
  destruct (decode_jpeg (original_encoded p)) as [image |] eqn:Hd;
    cbn [try_op rbind]; [| discriminate].
  destruct (new_size (original_height p)) as [h | |] eqn:Hh; cbn [rbind];
    try discriminate.
  destruct (new_size (original_width p)) as [w | |] eqn:Hw; cbn [rbind];
    try discriminate.
  destruct (resize_images image h w) as [resized_image |] eqn:Hr; cbn [try_op rbind];
    [| discriminate].
  destruct (encode_jpeg resized_image) as [b |] eqn:He; cbn [try_op rbind];
    [| discriminate].
  intros [= <-]. cbn. eauto 10.
Qed.

End Record.

Lemma scaled_by_3 (original : Z) :
  Spec.scaled (Some (inject_Z 3)) original = 3 * original /\
  Spec.scaled None original = 3 * original.
Proof.
  unfold Spec.scaled, Spec.default_scaleFactor, default, from_option, id.
  unfold Qfloor, Qmult, inject_Z. cbn [Qnum Qden Pos.mul].
  rewrite Z.div_1_r. lia.
Qed.

(** C3. When a record is decoded, resized and re-encoded, the example
    appended to the output file has the four bounding-box lists of the
    example parsed from the input record, unchanged. *)
Theorem bbox_lists_pass_through {rt : Runtime} input output t record_string w t' w' :
  record_step input output t record_string w = (Ok t', w') ->
  exists example_in example_out,
    ParseFromString record_string = Some example_in /\
    fs w' = alter (fun rs => rs ++ [SerializeToString example_out]) output (fs w) /\
    float_list_value (feature example_out "image/object/bbox/xmin")
      = float_list_value (feature example_in "image/object/bbox/xmin") /\
    float_list_value (feature example_out "image/object/bbox/ymin")
      = float_list_value (feature example_in "image/object/bbox/ymin") /\
    float_list_value (feature example_out "image/object/bbox/xmax")
      = float_list_value (feature example_in "image/object/bbox/xmax") /\
    float_list_value (feature example_out "image/object/bbox/ymax")
      = float_list_value (feature example_in "image/object/bbox/ymax").
Proof.
  intros Hstep.
  destruct (record_step_inv _ _ _ _ _ _ _ Hstep)
    as (p & r & name & example & Hp & _ & _ & Hex & Hfs & _).
  destruct (parse_record_inv _ _ Hp)
    as (example_in & Hin & Hxmin & Hymin & Hxmax & Hymax & _).
  exists example_in, example. apply convert_inv in Hex. subst example.
  rewrite <- Hxmin, <- Hymin, <- Hxmax, <- Hymax.
  repeat split; auto.
Qed.

Lemma bbox_lists_pass_through_witness :
  exists w' example_out,
    fs w' = alter (fun rs => rs ++ [SerializeToString example_out]) "out/s0"
              (fs Sample.opened) /\
    float_list_value (feature example_out "image/object/bbox/xmin")
      = [Sample.quarter; Sample.half] /\
    float_list_value (feature example_out "image/object/bbox/ymax")
      = [Sample.half; Sample.quarter].
Proof.
  destruct (bbox_lists_pass_through "in/s0" "out/s0" (Totals 0 0 0) "fox"
              Sample.opened (Totals 8 12 1)
              (record_step "in/s0" "out/s0" (Totals 0 0 0) "fox" Sample.opened).2)
    as (example_in & example_out & Hin & Hfs & Hxmin & _ & _ & Hymax).
  - vm_compute. reflexivity.
  - injection Hin as <-. eauto.
Defined.

(** C4. In every example built by [_convert_to_example] the per-object
    label list has as many elements as there are bounding boxes (the length
    of the [xmin] list), each equal to the class label of the example. *)
Theorem bbox_labels_repeat_label {rt : Runtime} filename image_buffer label synset human
    xmin ymin xmax ymax height width (example : Example) :
  _convert_to_example filename image_buffer label synset human
    xmin ymin xmax ymax height width = Ok example ->
  exists labels,
    feature example "image/object/bbox/label" = int64_list labels /\
    length labels = length (float_list_value (feature example "image/object/bbox/xmin")) /\
    length labels = length xmin /\
    feature example "image/class/label" = int64_list [label] /\
    Forall (fun l => l = label) labels.
Proof.
  intros Hex. apply convert_inv in Hex. subst example.
  exists (list_repeat label (Z.of_nat (length xmin))).
  unfold list_repeat. rewrite Nat2Z.id.
  repeat split; try (cbn; rewrite ?length_replicate; reflexivity).
  apply Forall_forall. intros l Hl. apply elem_of_replicate in Hl. tauto.
Qed.

Lemma bbox_labels_repeat_label_witness :
  exists example,
    _convert_to_example "a/fox.JPEG" "JFIF:resized" 278 "n02119789" "kit fox"
      [Sample.quarter; Sample.half] [Sample.quarter] [Sample.half] []
      300 300 = Ok example /\
    feature example "image/object/bbox/label" = int64_list [278; 278].
Proof.
  eexists. split; [reflexivity |].
  destruct (bbox_labels_repeat_label "a/fox.JPEG" "JFIF:resized" 278
              "n02119789" "kit fox" [Sample.quarter; Sample.half] [Sample.quarter]
              [Sample.half] [] 300 300 _ eq_refl) as (labels & -> & _ & Hlen & _ & Hall).
  destruct labels as [| a [| b [| c labels]]]; try discriminate.
  inversion Hall as [| ? ? -> Hall']. inversion Hall' as [| ? ? -> _]. reflexivity.
Defined.

(** C6. Every example appended to an output file has colorspace "RGB",
    3 channels and format "JPEG", whatever the input record said about
    them and whatever the image operations returned. *)
Theorem output_constants {rt : Runtime} input output t record_string w t' w' :
  record_step input output t record_string w = (Ok t', w') ->
  exists example,
    fs w' = alter (fun rs => rs ++ [SerializeToString example]) output (fs w) /\
    feature example "image/colorspace" = bytes_list ["RGB"] /\
    feature example "image/channels" = int64_list [3] /\
    feature example "image/format" = bytes_list ["JPEG"].
Proof.
  intros Hstep.
  destruct (record_step_inv _ _ _ _ _ _ _ Hstep)
    as (p & r & name & example & _ & _ & _ & Hex & Hfs & _).
  exists example. apply convert_inv in Hex. subst example. auto.
Qed.

Lemma output_constants_witness :
  feature (Sample.fox 100 100 "JFIF:fox") "image/colorspace" = bytes_list ["Gray"] /\
  exists w' example,
    fs w' = alter (fun rs => rs ++ [SerializeToString example]) "out/s0"
              (fs Sample.opened) /\
    feature example "image/colorspace" = bytes_list ["RGB"] /\
    feature example "image/channels" = int64_list [3] /\
    feature example "image/format" = bytes_list ["JPEG"].
Proof.
  split; [reflexivity |].
  destruct (output_constants "in/s0" "out/s0" (Totals 0 0 0) "fox"
              Sample.opened (Totals 8 12 1)
              (record_step "in/s0" "out/s0" (Totals 0 0 0) "fox" Sample.opened).2)
    as (example & H).
  - vm_compute. reflexivity.
  - eauto.
Defined.

(** Beyond [2^53] the product is rounded: line 119 on a height of
    [2^53 + 1] yields [3 * 2^53]. *)
Example new_size_rounds : new_size (2 ^ 53 + 1) = Ok (3 * 2 ^ 53).
Proof. vm_compute. reflexivity. Qed.

(** C2, as the code has it.  When a record whose height [H] and width [W]
    satisfy [0 <= H], [0 <= W], [3 * H < 2^53] and [3 * W < 2^53] is
    decoded, resized and re-encoded, the example appended to the output file
    carries height [3 * H] and width [3 * W], which are [floor(H * 3)] and
    [floor(W * 3)]. *)
Theorem output_dimensions_tripled {rt : Runtime} input output t record_string w t' w' p :
  record_step input output t record_string w = (Ok t', w') ->
  parse_record record_string = Ok p ->
  0 <= original_height p -> 3 * original_height p < 2 ^ 53 ->
  0 <= original_width p -> 3 * original_width p < 2 ^ 53 ->
  exists example,
    fs w' = alter (fun rs => rs ++ [SerializeToString example]) output (fs w) /\
    feature example "image/height" = int64_list [3 * original_height p] /\
    feature example "image/width" = int64_list [3 * original_width p] /\
    3 * original_height p = Spec.scaled (Some (inject_Z 3)) (original_height p) /\
    3 * original_width p = Spec.scaled (Some (inject_Z 3)) (original_width p).
Proof.
  intros Hstep Hp Hh0 Hh Hw0 Hw.
  destruct (record_step_inv _ _ _ _ _ _ _ Hstep)
    as (p' & r & name & example & Hp' & Hr & _ & Hex & Hfs & _).
  rewrite Hp in Hp'. injection Hp' as <-.
  apply resize_image_inv in Hr as (Hnh & Hnw & _).
  rewrite new_size_exact in Hnh, Hnw by assumption.
  injection Hnh as Hnh. injection Hnw as Hnw.
  exists example. apply convert_inv in Hex. subst example.
  rewrite <- Hnh, <- Hnw in Hfs. rewrite <- Hnh, <- Hnw.
  split; [exact Hfs |]. split; [reflexivity |]. split; [reflexivity |].
  split; symmetry; apply scaled_by_3.
Qed.

Lemma output_dimensions_tripled_witness :
  exists w' example,
    fs w' = alter (fun rs => rs ++ [SerializeToString example]) "out/s0"
              (fs Sample.opened) /\
    feature example "image/height" = int64_list [300] /\
    feature example "image/width" = int64_list [300].
Proof.
  destruct (output_dimensions_tripled "in/s0" "out/s0" (Totals 0 0 0) "fox"
              Sample.opened (Totals 8 12 1)
              (record_step "in/s0" "out/s0" (Totals 0 0 0) "fox" Sample.opened).2
              (Parsed "train/n02119789/fox.JPEG" 278 "n02119789" "kit fox"
                 [Sample.quarter; Sample.half] [Sample.quarter; Sample.quarter]
                 [Sample.half; Sample.half] [Sample.half; Sample.quarter]
                 100 100 "JFIF:fox"))
    as (example & Hfs & Hh & Hw & _).
  - vm_compute. reflexivity.
  - vm_compute. reflexivity.
  - cbn. lia.
  - cbn. lia.
  - cbn. lia.
  - cbn. lia.
  - eauto.
Defined.

(** C2 as stated fails.  Take the height [H = 3002399751580431], for
    which [3 * H = 2^53 + 301], and the width 100.  [H] is a double, and the
    product [H * 3.0] lies half way between the doubles [2^53 + 300] and
    [2^53 + 302]: it is rounded to [2^53 + 300].  As an int32 size this is
    300, so the image is resized, and the record is written with height
    [2^53 + 300], which is neither [3 * H] nor [floor(H * 3)]. *)
Lemma tall_record_not_tripled :
  let step := record_step "in/s0" "out/s0" (Totals 0 0 0) "tall" Sample.opened in
  let example := match output_of "tall" with Ok e => e | _ => ∅ end in
  (original_height <$> result_option (parse_record "tall"))
    = Some 3002399751580431 /\
  (original_width <$> result_option (parse_record "tall")) = Some 100 /\
  3 * 3002399751580431 = 2 ^ 53 + 301 /\
  new_size 3002399751580431 = Ok (2 ^ 53 + 300) /\
  Sample.to_int32 (2 ^ 53 + 300) = 300 /\
  step.1 = Ok (Totals 8 12 1) /\
  fs step.2 !! "out/s0" = Some [SerializeToString example] /\
  feature example "image/height" = int64_list [2 ^ 53 + 300] /\
  feature example "image/width" = int64_list [300] /\
  2 ^ 53 + 300 <> 3 * 3002399751580431 /\
  2 ^ 53 + 300 <> Spec.scaled (Some (inject_Z 3)) 3002399751580431.
Proof.
  cbv zeta. repeat split; try (vm_compute; reflexivity).
  - lia.
  - rewrite (proj1 (scaled_by_3 _)). lia.
Qed.

(** C9 as stated fails: a supplied scale factor of 2 is not what the
    transform applies to a height of 100. *)
Lemma supplied_scale_factor_unused :
  new_size 100 = Ok 300 /\
  Spec.scaled (Some (inject_Z 2)) 100 = 200 /\
  new_size 100 <> Ok (Spec.scaled (Some (inject_Z 2)) 100).
Proof.
  assert (H1 : new_size 100 = Ok 300) by (vm_compute; reflexivity).
  assert (H2 : Spec.scaled (Some (inject_Z 2)) 100 = 200) by (vm_compute; reflexivity).
  rewrite H1, H2. repeat split. discriminate.
Qed.

(** C9, as the code has it.  The scale factor is not an input of the
    transform: line 118 fixes it to the double 3.0, the default of the
    specification, and a dimension [0 <= d] with [3 * d < 2^53] is scaled as
    the specification scales it when no factor is supplied. *)
Theorem scale_factor_is_the_default (original : Z) :
  0 <= original -> 3 * original < 2 ^ 53 ->
  float_of_int 3 = Ok resize_factor /\
  new_size original = Ok (Spec.scaled None original).
Proof.
  intros H0 H3. split; [reflexivity |].
  rewrite (proj2 (scaled_by_3 _)). apply new_size_exact; assumption.
Qed.

Lemma scale_factor_is_the_default_witness :
  float_of_int 3 = Ok resize_factor /\ new_size 100 = Ok (Spec.scaled None 100).
Proof. apply scale_factor_is_the_default; lia. Defined.

(* ===================================================================== *)
(** ** One shard *)
(* ===================================================================== *)

Section Loops.
Context {A S : Type} (body : S -> A -> M S).

Lemma for_each_app (xs ys : list A) : forall (s : S) (w : world),
  for_each body s (xs ++ ys) w =
  match for_each body s xs w with
  | (Ok s', w') => for_each body s' ys w'
  | (Raise e, w') => (Raise e, w')
  | (Diverge, w') => (Diverge, w')
  end.
Proof.
  induction xs as [| x xs IH]; intros s w; cbn [for_each app].
  - reflexivity.
  - unfold bind. destruct (body s x w) as [[s' | e |] w']; auto.
Qed.

(** The loop stops at the first element whose body raises. *)
Lemma for_each_raise (xs ys : list A) (x : A) (s s' : S) (w w' w'' : world) (e : exn) :
  for_each body s xs w = (Ok s', w') ->
  body s' x w' = (Raise e, w'') ->
  for_each body s (xs ++ x :: ys) w = (Raise e, w'').
Proof.
  intros Hxs Hx. rewrite for_each_app, Hxs. cbn [for_each]. unfold bind.
  rewrite Hx. reflexivity.
Qed.

End Loops.

Lemma started_snoc_record (out : list line) input name a b :
  started (out ++ [LineRecord input name a b]) = started out.
Proof. unfold started. rewrite omap_app. cbn. apply app_nil_r. Qed.

Lemma started_snoc_summary (out : list line) input n a b :
  started (out ++ [LineSummary input n a b]) = started out.
Proof. unfold started. rewrite omap_app. cbn. apply app_nil_r. Qed.

Lemma started_snoc_shard (out : list line) rank input output :
  started (out ++ [LineShard rank input output]) = started out ++ [input].
Proof. unfold started. rewrite omap_app. reflexivity. Qed.

Section Shard.
Context {rt : Runtime}.

Lemma output_of_step input output t record_string w t' w' :
  record_step input output t record_string w = (Ok t', w') ->
  exists example,
    output_of record_string = Ok example /\
    fs w' = alter (fun rs => rs ++ [SerializeToString example]) output (fs w) /\
    started (stdout w') = started (stdout w) /\
    image_count t' = image_count t + 1.
Proof.
  intros Hstep.
  destruct (record_step_inv _ _ _ _ _ _ _ Hstep)
    as (p & r & name & example & Hp & Hr & Hname & Hex & Hfs & Hout & ->).
  exists example. unfold output_of. rewrite Hp. cbn [rbind]. rewrite Hr. cbn [rbind].
  rewrite Hname. cbn [try_op rbind]. rewrite Hout, started_snoc_record. auto.
Qed.

(** A record loop that completes has appended one example per record, in
    order, to the output file and to no other. *)
Lemma record_loop_ok input output : forall records t w t' w' written,
  for_each (record_step input output) t records w = (Ok t', w') ->
  fs w !! output = Some written ->
  exists examples,
    fs w' !! output = Some (written ++ (SerializeToString <$> examples)) /\
    Forall2 (fun record example => output_of record = Ok example) records examples /\
    started (stdout w') = started (stdout w) /\
    image_count t' = image_count t + Z.of_nat (length records).
Proof.
  induction records as [| record records IH]; intros t w t' w' written; cbn [for_each].
  - intros [= <- <-] Hw. exists []. cbn. rewrite app_nil_r. split_and!; auto. lia.
  - unfold bind.
    destruct (record_step input output t record w) as [[t1 | e |] w1] eqn:Hstep;
      try discriminate.
    intros Hrest Hw.
    destruct (output_of_step _ _ _ _ _ _ _ Hstep) as (example & Hex & Hfs & Hst & Hn).
    assert (Hw1 : fs w1 !! output = Some (written ++ [SerializeToString example])).
    { rewrite Hfs, lookup_alter_eq, Hw. reflexivity. }
    destruct (IH _ _ _ _ _ Hrest Hw1) as (examples & Hout & Hall & Hst' & Hn').
    exists (example :: examples). split_and!.
    + rewrite Hout, <- app_assoc. reflexivity.
    + constructor; assumption.
    + congruence.
    + cbn [length]. lia.
Qed.

(** A record whose image does not decode raises before anything is printed
    or written for it. *)
Lemma record_step_corrupt input output t record_string w p :
  parse_record record_string = Ok p ->
  decode_jpeg (original_encoded p) = None ->
  record_step input output t record_string w = (Raise OpError, w).
Proof.
  intros Hp Hd. unfold record_step, bind, lift. rewrite Hp.
  unfold resize_image. rewrite Hd. reflexivity.
Qed.

(** C5. When [process_tf_record_file] completes without an exception, the
    output file holds exactly one example per record read from the input
    file, in the order read: as many records are written as were read. *)
Theorem record_count_preserved input output w w' :
  process_tf_record_file input output w = (Ok tt, w') ->
  exists records examples,
    <[output := []]> (fs w) !! input = Some records /\
    fs w' !! output = Some (SerializeToString <$> examples) /\
    length examples = length records /\
    Forall2 (fun record example => output_of record = Ok example) records examples.
Proof.
  unfold process_tf_record_file, bind, open_writer, read_records, lift, print.
  cbn [fs stdout].
  destruct (<[output := []]> (fs w) !! input) as [records |] eqn:Hread;
    cbn [try_op]; [| discriminate].
  destruct (for_each _ _ records _) as [[t | e |] w1] eqn:Hloop; try discriminate.
  destruct (truediv (original_len_total t) (image_count t)); try discriminate.
  destruct (truediv (resized_len_total t) (image_count t)); try discriminate.
  intros [= <-]. cbn [fs].
  destruct (record_loop_ok _ _ _ _ _ _ _ [] Hloop) as (examples & Hout & Hall & _).
  { cbn [fs]. apply lookup_insert_eq. }
  exists records, examples. split_and!; auto.
  symmetry. eapply Forall2_length, Hall.
Qed.

(** C7, on the code: a shard without records makes
    [process_tf_record_file] raise ZeroDivisionError at line 152, after the
    output file has been created empty. *)
Theorem empty_shard_divides_by_zero input output w :
  <[output := []]> (fs w) !! input = Some [] ->
  process_tf_record_file input output w =
    (Raise ZeroDivisionError, {| fs := <[output := []]> (fs w); stdout := stdout w |}).
Proof.
  intros Hread.
  unfold process_tf_record_file, bind, open_writer, read_records, lift.
  cbn [fs stdout]. rewrite Hread. reflexivity.
Qed.

End Shard.

Lemma record_count_preserved_witness :
  exists w' examples,
    process_tf_record_file "in/s1" "out/s1" Sample.start = (Ok tt, w') /\
    fs w' !! "out/s1" = Some (SerializeToString <$> examples) /\
    length examples = 2%nat.
Proof.
  exists (process_tf_record_file "in/s1" "out/s1" Sample.start).2.
  destruct (record_count_preserved "in/s1" "out/s1" Sample.start
              (process_tf_record_file "in/s1" "out/s1" Sample.start).2)
    as (records & examples & Hread & Hout & Hlen & _).
  - vm_compute. reflexivity.
  - exists examples. split; [vm_compute; reflexivity |]. split; [exact Hout |].
    assert (Hr : Some records = Some ["fox"; "fox"])
      by (rewrite <- Hread; vm_compute; reflexivity).
    injection Hr as ->. exact Hlen.
Defined.

Lemma empty_shard_divides_by_zero_witness :
  fs Sample.start !! "in/s3" = Some [] /\
  (process_tf_record_file "in/s3" "out/s3" Sample.start).1 = Raise ZeroDivisionError.
Proof.
  split; [vm_compute; reflexivity |].
  rewrite (empty_shard_divides_by_zero "in/s3" "out/s3" Sample.start).
  - reflexivity.
  - vm_compute. reflexivity.
Defined.

(* ===================================================================== *)
(** ** The worker *)
(* ===================================================================== *)

Lemma inputs_at_cons (names : list string) (j : Z) (l : list Z) (input : string) :
  getitem names j = Ok input -> inputs_at names (j :: l) = input :: inputs_at names l.
Proof. intros Hget. unfold inputs_at. simpl. rewrite Hget. reflexivity. Qed.

Lemma inputs_at_app (names : list string) (l1 l2 : list Z) :
  inputs_at names (l1 ++ l2) = inputs_at names l1 ++ inputs_at names l2.
Proof. apply omap_app. Qed.

Section Worker.
Context {rt : Runtime}.

Lemma process_ok_started input output w w' :
  process_tf_record_file input output w = (Ok tt, w') ->
  started (stdout w') = started (stdout w).
Proof.
  unfold process_tf_record_file, bind, open_writer, read_records, lift, print.
  cbn [fs stdout].
  destruct (<[output := []]> (fs w) !! input) as [records |] eqn:Hread;
    cbn [try_op]; [| discriminate].
  destruct (for_each _ _ records _) as [[t | e |] w1] eqn:Hloop; try discriminate.
  destruct (truediv (original_len_total t) (image_count t)); try discriminate.
  destruct (truediv (resized_len_total t) (image_count t)); try discriminate.
  intros [= <-]. cbn [stdout]. rewrite started_snoc_summary.
  destruct (record_loop_ok _ _ _ _ _ _ _ [] Hloop) as (_ & _ & _ & Hst & _).
  { cbn [fs]. apply lookup_insert_eq. }
  exact Hst.
Qed.

(** The shards a completed run of the shard body has started on. *)
Lemma shards_ok_started rank names output_dir : forall l w w',
  for_each (fun _ j => shard_step rank names output_dir j) tt l w = (Ok tt, w') ->
  started (stdout w') = started (stdout w) ++ inputs_at names l.
Proof.
  induction l as [| j l IH]; intros w w'; cbn [for_each].
  - intros [= <-]. unfold inputs_at. cbn. rewrite app_nil_r. reflexivity.
  - unfold bind.
    destruct (shard_step rank names output_dir j w) as [[[] | e |] w1] eqn:Hstep;
      try discriminate.
    intros Hrest. rewrite (IH _ _ Hrest).
    unfold shard_step, bind, lift, print in Hstep.
    destruct (getitem names j) as [input | |] eqn:Hget; try discriminate.
    apply process_ok_started in Hstep. cbn [stdout] in Hstep.
    rewrite Hstep, started_snoc_shard, <- app_assoc, (inputs_at_cons _ _ _ _ Hget).
    reflexivity.
Qed.

(** C8. Let the worker reach, after the shards [done] of its schedule,
    the shard of index [i], whose file holds the records [pre], then a
    record whose image does not decode, then [post].  If the records of
    [pre] go through, the worker ends with an uncaught exception in the
    state [w2] it had after the last record of [pre]: the failing shard's
    output holds the examples of [pre] only, and the shards started are
    those of [done] and [i], none of the rest of the schedule. *)
Theorem corrupt_image_stops_worker fuel rank size input_files output_dir w names
    done i rest w1 input pre record_string post p t w2 :
  names = sorted (glob input_files w) ->
  schedule fuel size (Z.of_nat (length names)) rank = Some (done ++ i :: rest) ->
  for_each (fun _ j => shard_step rank names output_dir j) tt done w = (Ok tt, w1) ->
  getitem names i = Ok input ->
  <[join output_dir (basename input) := []]> (fs w1) !! input
    = Some (pre ++ record_string :: post) ->
  for_each (record_step input (join output_dir (basename input))) (Totals 0 0 0) pre
    {| fs := <[join output_dir (basename input) := []]> (fs w1);
       stdout := stdout w1 ++
         [LineShard rank input (join output_dir (basename input))] |}
    = (Ok t, w2) ->
  parse_record record_string = Ok p ->
  decode_jpeg (original_encoded p) = None ->
  worker fuel rank size input_files output_dir w = (Raise OpError, w2) /\
  started (stdout w2) = started (stdout w) ++ inputs_at names (done ++ [i]) /\
  exists examples,
    fs w2 !! join output_dir (basename input) = Some (SerializeToString <$> examples) /\
    Forall2 (fun record example => output_of record = Ok example) pre examples.
Proof.
  intros Hnames Hsched Hdone Hget Hread Hpre Hp Hd.
  set (output := join output_dir (basename input)) in *.
  split; [| split].
  - unfold worker. rewrite <- Hnames.
    rewrite (worker_loop_schedule _ _ _ _ _ _ _ _ Hsched).
    apply (for_each_raise _ _ _ _ _ _ _ _ _ _ Hdone).
    unfold shard_step, bind, lift, print. rewrite Hget.
    unfold process_tf_record_file, bind, open_writer, read_records.
    cbn [fs stdout]. fold output. rewrite Hread. cbn [try_op].
    rewrite (for_each_raise _ _ _ _ _ _ _ _ _ _ Hpre
               (record_step_corrupt _ _ _ _ _ _ Hp Hd)).
    reflexivity.
  - destruct (record_loop_ok _ _ _ _ _ _ _ [] Hpre) as (_ & _ & _ & Hst & _).
    { cbn [fs]. apply lookup_insert_eq. }
    rewrite Hst. cbn [stdout].
    rewrite started_snoc_shard, (shards_ok_started _ _ _ _ _ _ Hdone).
    rewrite inputs_at_app, (inputs_at_cons _ _ _ _ Hget), <- app_assoc.
    reflexivity.
  - destruct (record_loop_ok _ _ _ _ _ _ _ [] Hpre) as (examples & Hout & Hall & _).
    { cbn [fs]. apply lookup_insert_eq. }
    exists examples. auto.
Qed.

End Worker.

Lemma corrupt_image_stops_worker_witness :
  exists w2 examples,
    worker 5 0 2 "in/*" "out" Sample.start = (Raise OpError, w2) /\
    schedule 5 2 5 0 = Some [0; 2; 4] /\
    started (stdout w2) = ["in/s0"; "in/s2"] /\
    fs w2 !! "out/s2" = Some (SerializeToString <$> examples) /\
    length examples = 1%nat /\
    fs w2 !! "out/s4" = None.
Proof.
  pose (names := sorted (glob "in/*" Sample.start)).
  pose (w1 := (for_each (fun _ j => shard_step 0 names "out" j) tt [0] Sample.start).2).
  pose (w2 := (for_each (record_step "in/s2" "out/s2") (Totals 0 0 0) ["fox"]
                 {| fs := <["out/s2" := []]> (fs w1);
                    stdout := stdout w1 ++ [LineShard 0 "in/s2" "out/s2"] |}).2).
  destruct (corrupt_image_stops_worker 5 0 2 "in/*" "out" Sample.start names
              [0] 2 [4] w1 "in/s2" ["fox"] "torn" ["fox"]
              (Parsed "train/n02119789/fox.JPEG" 278 "n02119789" "kit fox"
                 [Sample.quarter; Sample.half] [Sample.quarter; Sample.quarter]
                 [Sample.half; Sample.half] [Sample.half; Sample.quarter]
                 100 100 "torn bytes")
              (Totals 8 12 1) w2)
    as (Hworker & Hstarted & examples & Hout & Hall);
    try (vm_compute; reflexivity).
  exists w2, examples. split_and!; try assumption; try (vm_compute; reflexivity).
  apply Forall2_length in Hall. symmetry. exact Hall.
Defined.

(* ===================================================================== *)
(** * Further properties of the script *)
(* ===================================================================== *)

(** ** The shard list *)

Lemma str_le_trans : Transitive str_le.
Proof.
  unfold str_le, String.leb. intros a.
  induction a as [| x a IH]; intros b c Hab Hbc.
  - destruct c; reflexivity.
  - destruct b as [| y b]; [discriminate |].
    destruct c as [| z c]; [discriminate |].
    cbn [String.compare] in *. unfold Ascii.compare in *.
    destruct (N.compare_spec (N_of_ascii x) (N_of_ascii y)) as [Hxy | Hxy | Hxy];
      [| | discriminate];
      destruct (N.compare_spec (N_of_ascii y) (N_of_ascii z)) as [Hyz | Hyz | Hyz];
      try discriminate.
    + rewrite Hxy, Hyz, N.compare_refl. eapply IH; eassumption.
    + rewrite Hxy. apply N.compare_lt_iff in Hyz. rewrite Hyz. reflexivity.
    + rewrite <- Hyz. apply N.compare_lt_iff in Hxy. rewrite Hxy. reflexivity.
    + assert (Hxz : (N_of_ascii x < N_of_ascii z)%N) by lia.
      apply N.compare_lt_iff in Hxz. rewrite Hxz. reflexivity.
Qed.

Lemma str_le_antisym : AntiSymm (=) str_le.
Proof. intros a b Hab Hba. apply String.leb_antisym; assumption. Qed.

(** X1. The shard list of [worker] does not depend on the order in which
    [glob] lists the files: two listings of the same paths are sorted into
    the same list, which is in ascending order and holds the paths
    listed. *)
Theorem sorted_ignores_listing_order (l1 l2 : list string) :
  l1 ≡ₚ l2 ->
  sorted l1 = sorted l2 /\ Sorted str_le (sorted l1) /\ sorted l1 ≡ₚ l1.
Proof.
  intros Hperm. split; [| split].
  - apply (Sorted_unique str_le (Transitive0 := str_le_trans)
             (AntiSymm0 := str_le_antisym)); try apply sorted_Sorted.
    unfold sorted. rewrite !merge_sort_Permutation. exact Hperm.
  - apply sorted_Sorted.
  - unfold sorted. apply merge_sort_Permutation.
Qed.

Lemma sorted_ignores_listing_order_witness :
  sorted ["in/s2"; "in/s0"; "in/s1"] = sorted ["in/s1"; "in/s2"; "in/s0"].
Proof.
  apply (sorted_ignores_listing_order ["in/s2"; "in/s0"; "in/s1"]
           ["in/s1"; "in/s2"; "in/s0"]).
  symmetry. apply (Permutation_cons_append ["in/s2"; "in/s0"] "in/s1").
Defined.

(** ** The loop of [worker] *)

(** The number of iterations of the loop started at [i]. *)
Lemma schedule_length (size num_files : Z) (Hsize : 1 <= size) :
  forall (fuel : nat) (i : Z) (l : list Z),
    schedule fuel size num_files i = Some l ->
    Z.of_nat (length l) =
      if i <? num_files then (num_files - i + size - 1) / size else 0.
Proof.
  induction fuel as [| fuel IH]; intros i l; cbn [schedule].
  - destruct (i <? num_files); [discriminate |]. intros [= <-]. reflexivity.
  - destruct (Z.ltb_spec i num_files) as [Hlt | Hge].
    + destruct (schedule fuel size num_files (i + size)) as [l' |] eqn:Hl';
        [| discriminate].
      intros [= <-]. cbn [length]. rewrite Nat2Z.inj_succ, (IH _ _ Hl').
      destruct (Z.ltb_spec (i + size) num_files) as [Hlt' | Hge'].
      * replace (num_files - i + size - 1)
          with (num_files - (i + size) + size - 1 + 1 * size) by lia.
        rewrite Z.div_add by lia. lia.
      * symmetry. replace (num_files - i + size - 1)
          with ((num_files - i - 1) + 1 * size) by lia.
        rewrite Z.div_add, Z.div_small by lia. lia.
    + intros [= <-]. reflexivity.
Qed.

(** X2. With [size >= 1], the worker of rank [0 <= rank < size] runs the
    shard body at [ceil((N - rank) / size)] indices of the [N] shards that
    match the input pattern: at least [floor(N / size)] and at most
    [ceil(N / size)], so two workers differ by at most one shard. *)
Theorem shards_per_worker {rt : Runtime} (input_files output_dir : string)
    (w : world) (size rank : Z) :
  1 <= size -> 0 <= rank < size ->
  exists l,
    worker (length (glob input_files w)) rank size input_files output_dir w
      = for_each
          (fun _ i => shard_step rank (sorted (glob input_files w)) output_dir i)
          tt l w /\
    Z.of_nat (length l)
      = (Z.of_nat (length (glob input_files w)) - rank + size - 1) / size /\
    Z.of_nat (length (glob input_files w)) / size <= Z.of_nat (length l)
      <= (Z.of_nat (length (glob input_files w)) + size - 1) / size.
Proof.
  intros Hsize Hrank. set (n := length (glob input_files w)). set (N := Z.of_nat n).
  destruct (schedule_spec size N Hsize n rank) as (l & Hl & _);
    [unfold N; lia |].
  exists l. split.
  { unfold worker. apply worker_loop_schedule. rewrite sorted_length. exact Hl. }
  pose proof (schedule_length size N Hsize _ _ _ Hl) as Hlen.
  assert (Hceil : Z.of_nat (length l) = (N - rank + size - 1) / size).
  { rewrite Hlen. destruct (Z.ltb_spec rank N) as [Hlt | Hge]; [reflexivity |].
    symmetry. apply Z.div_small. unfold N in *. lia. }
  split; [exact Hceil |]. rewrite Hceil. split.
  - apply Z.div_le_mono; lia.
  - apply Z.div_le_mono; lia.
Qed.

Lemma shards_per_worker_witness :
  exists l,
    worker 5 1 2 "in/*" "out" Sample.start
      = for_each (fun _ i => shard_step 1 (sorted (glob "in/*" Sample.start)) "out" i)
          tt l Sample.start /\
    Z.of_nat (length l) = 2.
Proof.
  assert (Hlen : length (glob (rt := Sample.runtime) "in/*" Sample.start) = 5%nat)
    by (vm_compute; reflexivity).
  pose proof (shards_per_worker (rt := Sample.runtime) "in/*" "out" Sample.start 2 1
                ltac:(lia) ltac:(lia)) as (l & Hrun & Hcount & _).
  rewrite Hlen in Hrun, Hcount. exists l. split; [exact Hrun |].
  rewrite Hcount. reflexivity.
Defined.

(** The loop visits indices in ascending order, from [i] on. *)
Lemma schedule_ascending (size num_files : Z) (Hsize : 1 <= size) :
  forall (fuel : nat) (i : Z) (l : list Z),
    schedule fuel size num_files i = Some l ->
    StronglySorted Z.lt l /\ Forall (fun j => i <= j < num_files) l.
Proof.
  induction fuel as [| fuel IH]; intros i l; cbn [schedule].
  - destruct (i <? num_files); [discriminate |]. intros [= <-].
    split; constructor.
  - destruct (Z.ltb_spec i num_files) as [Hlt | Hge].
    + destruct (schedule fuel size num_files (i + size)) as [l' |] eqn:Hl';
        [| discriminate].
      intros [= <-]. destruct (IH _ _ Hl') as (Hs & Hall). split.
      * constructor; [exact Hs |].
        eapply Forall_impl; [exact Hall |]. cbn. intros; lia.
      * constructor; [lia |].
        eapply Forall_impl; [exact Hall |]. cbn. intros; lia.
    + intros [= <-]. split; constructor.
Qed.

(** The indices a finished loop has visited. *)
Lemma schedule_members (size num_files : Z) (Hsize : 1 <= size) :
  forall (fuel : nat) (i : Z) (l : list Z),
    schedule fuel size num_files i = Some l ->
    forall j, j ∈ l <-> j < num_files /\ exists k, 0 <= k /\ j = i + k * size.
Proof.
  induction fuel as [| fuel IH]; intros i l; cbn [schedule].
  - destruct (Z.ltb_spec i num_files) as [Hlt | Hge]; [discriminate |].
    intros [= <-] j. split.
    + intros Hin. inversion Hin.
    + intros (Hj & k & Hk & ->). nia.
  - destruct (Z.ltb_spec i num_files) as [Hlt | Hge].
    + destruct (schedule fuel size num_files (i + size)) as [l' |] eqn:Hl';
        [| discriminate].
      intros [= <-] j. rewrite elem_of_cons, (IH _ _ Hl'). split.
      * intros [-> | (Hj & k & Hk & ->)].
        -- split; [lia |]. exists 0. lia.
        -- split; [lia |]. exists (k + 1). lia.
      * intros (Hj & k & Hk & ->).
        destruct (Z.eq_dec k 0) as [-> | Hk0]; [left; lia | right].
        split; [lia |]. exists (k - 1). lia.
    + intros [= <-] j. split.
      * intros Hin. inversion Hin.
      * intros (Hj & k & Hk & ->). nia.
Qed.

(** A loop that returns normally had fuel for its whole schedule. *)
Lemma worker_loop_ok_schedule {rt : Runtime} (rank size : Z) (names : list string)
    (output_dir : string) :
  forall (fuel : nat) (i : Z) (w w' : world),
    worker_loop fuel rank size names output_dir i w = (Ok tt, w') ->
    exists l, schedule fuel size (Z.of_nat (length names)) i = Some l.
Proof.
  induction fuel as [| fuel IH]; intros i w w'; cbn [worker_loop schedule].
  - destruct (i <? Z.of_nat (length names)); [discriminate | eauto].
  - destruct (i <? Z.of_nat (length names)); [| eauto].
    unfold bind.
    destruct (shard_step rank names output_dir i w) as [[[] | e |] w1];
      try discriminate.
    intros Hrest. destruct (IH _ _ _ Hrest) as (l & ->). cbn. eauto.
Qed.

Lemma getitem_in_range {A} (l : list A) (i : Z) :
  0 <= i < Z.of_nat (length l) ->
  exists x, getitem l i = Ok x /\ l !! Z.to_nat i = Some x.
Proof.
  intros Hi. unfold getitem. cbv zeta.
  assert (H1 : (i <? 0) = false) by lia.
  assert (H2 : (Z.of_nat (length l) <=? i) = false) by lia.
  rewrite !H1, H2. cbn [orb].
  destruct (l !! Z.to_nat i) as [x |] eqn:Hx; [exists x; split; reflexivity |].
  apply lookup_ge_None in Hx. lia.
Qed.

Lemma getitem_elem_of {A} (l : list A) (i : Z) (x : A) :
  getitem l i = Ok x -> x ∈ l.
Proof.
  unfold getitem. destruct (_ || _); [discriminate |].
  destruct (l !! _) as [y |] eqn:Hy; [| discriminate].
  intros [= <-]. eapply list_elem_of_lookup_2, Hy.
Qed.

(** The names at ascending indices of a list without duplicates are
    themselves without duplicates. *)
Lemma inputs_at_NoDup (names : list string) (l : list Z) :
  NoDup names -> StronglySorted Z.lt l ->
  Forall (fun j => 0 <= j < Z.of_nat (length names)) l ->
  NoDup (inputs_at names l) /\ length (inputs_at names l) = length l /\
  forall n, n ∈ inputs_at names l <-> exists j, j ∈ l /\ names !! Z.to_nat j = Some n.
Proof.
  intros Hnames. induction l as [| j l IH]; intros Hs Hall.
  - split; [constructor | split; [reflexivity |]].
    intros n. split; [intros Hn; inversion Hn | intros (j & Hj & _); inversion Hj].
  - apply StronglySorted_inv in Hs as (Hs & Hlt).
    apply Forall_cons in Hall as (Hj & Hall).
    destruct (IH Hs Hall) as (Hnd & Hlen & Hmem).
    destruct (getitem_in_range names j Hj) as (x & Hget & Hx).
    rewrite (inputs_at_cons _ _ _ _ Hget). split; [| split].
    + constructor; [| exact Hnd]. rewrite Hmem. intros (k & Hk & Hxk).
      rewrite Forall_forall in Hlt, Hall.
      pose proof (Hlt _ Hk). pose proof (Hall _ Hk).
      pose proof (NoDup_lookup names _ _ x Hnames Hx Hxk).
      lia.
    + cbn [length]. congruence.
    + intros n. rewrite elem_of_cons, Hmem. split.
      * intros [-> | (k & Hk & Hn)].
        -- exists j. split; [left | exact Hx].
        -- exists k. split; [right; exact Hk | exact Hn].
      * intros (k & Hk & Hn). apply elem_of_cons in Hk as [-> | Hk].
        -- left. congruence.
        -- right. eauto.
Qed.

Lemma glob_NoDup {rt : Runtime} (pattern : string) (w : world) :
  NoDup (sorted (glob pattern w)).
Proof.
  unfold sorted. rewrite merge_sort_Permutation. unfold glob.
  apply NoDup_ListNoDup, List.NoDup_filter, NoDup_ListNoDup.
  exact (NoDup_fst_map_to_list (fs w)).
Qed.

(** X3. A worker with [size >= 1] and [rank >= 0] that returns normally
    has started on each shard of its assignment exactly once, in ascending
    order of the sorted list, and on no other shard: the shards started
    during the run are those at the indices [rank + k * size]. *)
Theorem normal_return_started_assignment {rt : Runtime} (fuel : nat) (rank size : Z)
    (input_files output_dir : string) (w w' : world) :
  1 <= size -> 0 <= rank ->
  worker fuel rank size input_files output_dir w = (Ok tt, w') ->
  exists shards,
    started (stdout w') = started (stdout w) ++ shards /\
    NoDup shards /\
    forall name, name ∈ shards <->
      exists k, 0 <= k /\
        sorted (glob input_files w) !! Z.to_nat (rank + k * size) = Some name.
Proof.
  intros Hsize Hrank Hw. unfold worker in Hw.
  set (names := sorted (glob input_files w)) in *.
  destruct (worker_loop_ok_schedule _ _ _ _ _ _ _ _ Hw) as (l & Hl).
  rewrite (worker_loop_schedule _ _ _ _ _ _ _ _ Hl) in Hw.
  destruct (schedule_ascending size _ Hsize _ _ _ Hl) as (Hs & Hall).
  assert (Hall' : Forall (fun j => 0 <= j < Z.of_nat (length names)) l).
  { eapply Forall_impl; [exact Hall |]. cbn. intros; lia. }
  destruct (inputs_at_NoDup names l (glob_NoDup _ _) Hs Hall') as (Hnd & _ & Hmem).
  pose proof (schedule_members size _ Hsize _ _ _ Hl) as Hsched.
  exists (inputs_at names l). split; [| split].
  - apply (shards_ok_started _ _ _ _ _ _ Hw).
  - exact Hnd.
  - intros name. rewrite Hmem. split.
    + intros (j & Hj & Hname). apply Hsched in Hj as (_ & k & Hk & ->). eauto.
    + intros (k & Hk & Hname).
      assert (Hlt : (Z.to_nat (rank + k * size) < length names)%nat)
        by (eapply lookup_lt_Some, Hname).
      exists (rank + k * size). split; [| exact Hname].
      apply Hsched. split; [nia | eauto].
Qed.

Lemma normal_return_started_assignment_witness :
  exists w' shards,
    worker 5 0 4 "in/*" "out" Sample.start = (Ok tt, w') /\
    started (stdout w') = shards /\ NoDup shards.
Proof.
  destruct (normal_return_started_assignment 5 0 4 "in/*" "out" Sample.start
              (worker 5 0 4 "in/*" "out" Sample.start).2)
    as (shards & Hst & Hnd & _); [lia | lia | vm_compute; reflexivity |].
  exists (worker 5 0 4 "in/*" "out" Sample.start).2, shards.
  split; [vm_compute; reflexivity |]. split; [exact Hst | exact Hnd].
Defined.

(** X4. With [size <= 0] a worker whose rank is below the number of
    shards never returns normally: the loop index never reaches the number
    of shards, so the run ends with an exception or goes on for ever,
    whatever the fuel. *)
Theorem nonpositive_size_never_returns {rt : Runtime} (fuel : nat) (rank size : Z)
    (input_files output_dir : string) (w : world) :
  size <= 0 ->
  rank < Z.of_nat (length (glob input_files w)) ->
  (worker fuel rank size input_files output_dir w).1 <> Ok tt /\
  schedule fuel size (Z.of_nat (length (glob input_files w))) rank = None.
Proof.
  intros Hsize Hrank. unfold worker.
  set (names := sorted (glob input_files w)).
  assert (HN : Z.of_nat (length (glob input_files w)) = Z.of_nat (length names))
    by (unfold names; rewrite sorted_length; reflexivity).
  rewrite HN in *. clearbody names. clear HN.
  assert (Hloop : forall fuel i w0, i < Z.of_nat (length names) ->
            (worker_loop fuel rank size names output_dir i w0).1 <> Ok tt /\
            schedule fuel size (Z.of_nat (length names)) i = None);
    [| apply Hloop; exact Hrank].
  clear fuel w Hrank.
  induction fuel as [| fuel IH]; intros i w0 Hi; cbn [worker_loop schedule];
    destruct (Z.ltb_spec i (Z.of_nat (length names))); try lia.
  - split; [discriminate | reflexivity].
  - destruct (IH (i + size) w0 ltac:(lia)) as (_ & ->). split; [| reflexivity].
    unfold bind.
    destruct (shard_step rank names output_dir i w0) as [[[] | e |] w1];
      cbn [fst]; try discriminate.
    apply IH. lia.
Qed.

Lemma nonpositive_size_never_returns_witness :
  (worker 50 0 0 "in/*" "out" Sample.start).1 = Diverge /\
  (worker 50 0 0 "in/*" "out" Sample.start).1 <> Ok tt.
Proof.
  split; [vm_compute; reflexivity |].
  apply (nonpositive_size_never_returns 50 0 0 "in/*" "out" Sample.start).
  - lia.
  - vm_compute. reflexivity.
Defined.

(** X5. A rank below [-N] is an index outside the shard list: the worker
    raises IndexError at line 167 before it has printed or written
    anything. *)
Theorem rank_below_minus_count_raises {rt : Runtime} (fuel : nat) (rank size : Z)
    (input_files output_dir : string) (w : world) :
  rank < - Z.of_nat (length (glob input_files w)) ->
  worker (S fuel) rank size input_files output_dir w = (Raise IndexError, w).
Proof.
  intros Hrank. unfold worker. cbn [worker_loop].
  rewrite sorted_length in *.
  destruct (Z.ltb_spec rank (Z.of_nat (length (glob input_files w)))); [| lia].
  unfold bind, shard_step, lift, getitem. cbv zeta. rewrite sorted_length.
  assert (H1 : (rank <? 0) = true) by lia. rewrite H1.
  assert (H2 : (rank + Z.of_nat (length (glob input_files w)) <? 0) = true) by lia.
  rewrite H2. reflexivity.
Qed.

Lemma rank_below_minus_count_raises_witness :
  worker 1 (-6) 2 "in/*" "out" Sample.start = (Raise IndexError, Sample.start).
Proof.
  apply (rank_below_minus_count_raises 0 (-6) 2 "in/*" "out" Sample.start).
  vm_compute. reflexivity.
Defined.

(** ** What a run may change *)

Section Respects.
Context (R : world -> world -> Prop) `{!Reflexive R} `{!Transitive R}.

Lemma respects_lift {A} (r : result A) : respects R (lift r).
Proof. intros w. reflexivity. Qed.

Lemma respects_ret {A} (a : A) : respects R (ret a).
Proof. intros w. reflexivity. Qed.

Lemma respects_bind {A B} (c : M A) (k : A -> M B) :
  respects R c -> (forall a, respects R (k a)) -> respects R (bind c k).
Proof.
  intros Hc Hk w. unfold bind. pose proof (Hc w) as Hw.
  destruct (c w) as [[a | e |] w1]; cbn [snd] in *; try exact Hw.
  etransitivity; [exact Hw | apply Hk].
Qed.

Lemma respects_for_each {A S} (body : S -> A -> M S) (xs : list A) :
  (forall s x, respects R (body s x)) -> forall s, respects R (for_each body s xs).
Proof.
  intros Hbody. induction xs as [| x xs IH]; intros s; cbn [for_each].
  - apply respects_ret.
  - apply respects_bind; [apply Hbody | exact IH].
Qed.

End Respects.

#[local] Instance same_files_except_refl mine : Reflexive (same_files_except mine).
Proof. intros w path _. reflexivity. Qed.

#[local] Instance same_files_except_trans mine : Transitive (same_files_except mine).
Proof.
  intros w1 w2 w3 H12 H23 path Hp. rewrite (H23 path Hp). apply H12, Hp.
Qed.

#[local] Instance stdout_grows_refl : Reflexive stdout_grows.
Proof. intros w. exists []. symmetry. apply app_nil_r. Qed.

#[local] Instance stdout_grows_trans : Transitive stdout_grows.
Proof.
  intros w1 w2 w3 (e1 & H1) (e2 & H2). exists (e1 ++ e2).
  rewrite H2, H1, app_assoc. reflexivity.
Qed.

Ltac r_bind := apply respects_bind; [apply _ | | ].
Ltac r_lift := apply respects_lift; try apply _.
Ltac r_ret := apply respects_ret; try apply _.

Section Frame.
Context {rt : Runtime}.

Lemma record_step_files input output t record_string :
  respects (same_files_except (eq output)) (record_step input output t record_string).
Proof.
  unfold record_step. cbv zeta.
  r_bind; [r_lift | intros p].
  r_bind; [r_lift | intros r].
  r_bind; [r_lift | intros name].
  r_bind; [| intros _].
  { intros w path _. reflexivity. }
  r_bind; [r_lift | intros example].
  r_bind; [| intros _; r_ret].
  intros w path Hp. cbn [snd fs writer_write].
  apply lookup_alter_ne. exact Hp.
Qed.

Lemma process_files input output :
  respects (same_files_except (eq output)) (process_tf_record_file input output).
Proof.
  unfold process_tf_record_file.
  r_bind; [| intros _].
  { intros w path Hp. cbn [snd fs open_writer]. apply lookup_insert_ne. exact Hp. }
  r_bind; [| intros records].
  { intros w. reflexivity. }
  r_bind; [| intros t].
  { apply respects_for_each; try apply _. intros s x. apply record_step_files. }
  r_bind; [r_lift | intros m1].
  r_bind; [r_lift | intros m2].
  intros w path _. reflexivity.
Qed.

#[local] Instance keeps_refl path : Reflexive (keeps path).
Proof. intros w Hw. exact Hw. Qed.

#[local] Instance keeps_trans path : Transitive (keeps path).
Proof. intros w1 w2 w3 H12 H23 Hw. apply H23, H12, Hw. Qed.

Lemma process_keeps_output input output (w : world) :
  is_Some (fs (open_writer output w).2 !! output) ->
  is_Some (fs (process_tf_record_file input output w).2 !! output).
Proof.
  intros Hopen. unfold process_tf_record_file, bind at 1.
  destruct (open_writer output w) as [[[] | e |] w1] eqn:Hw1;
    try (unfold open_writer in Hw1; discriminate).
  cbn [snd] in Hopen. revert Hopen.
  match goal with |- _ -> is_Some (fs (?c w1).2 !! output) =>
    change (keeps output w1 (c w1).2); generalize w1;
    change (respects (keeps output) c)
  end.
  r_bind; [| intros records].
  { intros w0. reflexivity. }
  r_bind; [| intros t].
  { apply respects_for_each; try apply _. intros s x. unfold record_step. cbv zeta.
    r_bind; [r_lift | intros p].
    r_bind; [r_lift | intros r].
    r_bind; [r_lift | intros name].
    r_bind; [| intros _].
    { intros w0 Hw0. exact Hw0. }
    r_bind; [r_lift | intros example].
    r_bind; [| intros _; r_ret].
    intros w0 (rs & Hrs). cbn [snd fs writer_write].
    rewrite lookup_alter_eq, Hrs. cbn. eauto. }
  r_bind; [r_lift | intros m1].
  r_bind; [r_lift | intros m2].
  intros w0 Hw0. exact Hw0.
Qed.

End Frame.

(** ** The output of a shard *)

Section Output.
Context {rt : Runtime}.




(** X9. Running [process_tf_record_file] again on the files a first run
    has left gives the outcome and the files of the first run: the output
    file is written from scratch, whatever it held. *)
Theorem rerun_gives_same_files input output (w : world) :
  process_tf_record_file input output
    {| fs := fs (process_tf_record_file input output w).2; stdout := stdout w |}
  = process_tf_record_file input output w.
Proof.
  destruct (process_keeps_output input output w) as (rs & Hrs).
  { cbn [snd fs open_writer]. rewrite lookup_insert_eq. eauto. }
  assert (Hfs : <[output := []]> (fs (process_tf_record_file input output w).2)
                = <[output := []]> (fs w)).
  { apply map_eq. intros path. destruct (decide (path = output)) as [-> | Hne].
    - rewrite !lookup_insert_eq. reflexivity.
    - rewrite !lookup_insert_ne by congruence. apply process_files. congruence. }
  unfold process_tf_record_file at 1 3. unfold bind at 1 6, open_writer.
  cbn [fs stdout]. rewrite Hfs. reflexivity.
Qed.

End Output.


(** ** What a shard reports *)

Section Stats.
Context {rt : Runtime}.

Lemma truediv_nonzero (a b : Z) :
  b <> 0 -> truediv a b = Ok (inject_Z a / inject_Z b)%Q.
Proof. intros Hb. unfold truediv. destruct (Z.eqb_spec b 0); [contradiction | reflexivity]. Qed.

Lemma sum_cons (x : Z) (xs : list Z) : sum (x :: xs) = x + sum xs.
Proof. reflexivity. Qed.

Lemma record_loop_stats input output : forall records t w t' w',
  for_each (record_step input output) t records w = (Ok t', w') ->
  exists lines,
    stdout w' = stdout w ++ lines /\
    length lines = length records /\
    Forall (fun l => exists name a b, l = LineRecord input name a b) lines /\
    original_len_total t' = original_len_total t + sum (original_len_of <$> records) /\
    resized_len_total t' = resized_len_total t + sum (resized_len_of <$> records) /\
    image_count t' = image_count t + Z.of_nat (length records).
Proof.
  induction records as [| record records IH]; intros t w t' w'; cbn [for_each].
  - intros [= <- <-]. exists []. cbn. rewrite app_nil_r.
    split_and!; auto; lia.
  - unfold bind.
    destruct (record_step input output t record w) as [[t1 | e |] w1] eqn:Hstep;
      try discriminate.
    intros Hrest.
    destruct (record_step_inv _ _ _ _ _ _ _ Hstep)
      as (p & r & name & example & Hp & Hr & _ & _ & _ & Hout & ->).
    destruct (IH _ _ _ _ Hrest) as (lines & Hout' & Hlen & Hall & Ho & Hrz & Hn).
    cbn [original_len_total resized_len_total image_count] in *.
    eexists (_ :: lines). split_and!.
    + rewrite Hout', Hout, <- app_assoc. reflexivity.
    + cbn [length]. congruence.
    + constructor; [eauto | exact Hall].
    + rewrite Ho, fmap_cons, sum_cons. unfold original_len_of at 2.
      rewrite Hp. lia.
    + rewrite Hrz, fmap_cons, sum_cons. unfold resized_len_of at 2.
      rewrite Hp, Hr. lia.
    + rewrite Hn. cbn [length]. lia.
Qed.

(** X10. A shard that is processed without an exception holds at least
    one record, and what is printed for it is one line per record, each
    naming the shard, then one summary line giving the number of records
    and, in thousands of bytes, the sum of the original sizes and the sum
    of the resized sizes, each divided by that number. *)
Theorem summary_reports_means input output (w w' : world) :
  process_tf_record_file input output w = (Ok tt, w') ->
  exists records lines,
    <[output := []]> (fs w) !! input = Some records /\
    records <> [] /\
    length lines = length records /\
    Forall (fun l => exists name a b, l = LineRecord input name a b) lines /\
    stdout w' = stdout w ++ lines ++
      [LineSummary input (Z.of_nat (length records))
         (per_thousand (inject_Z (sum (original_len_of <$> records))
                        / inject_Z (Z.of_nat (length records))))
         (per_thousand (inject_Z (sum (resized_len_of <$> records))
                        / inject_Z (Z.of_nat (length records))))].
Proof.
  unfold process_tf_record_file, bind, open_writer, read_records, lift, print.
  cbn [fs stdout].
  destruct (<[output := []]> (fs w) !! input) as [records |] eqn:Hread;
    cbn [try_op]; [| discriminate].
  destruct (for_each _ _ records _) as [[t | e |] w1] eqn:Hloop; try discriminate.
  destruct (record_loop_stats _ _ _ _ _ _ _ Hloop)
    as (lines & Hout & Hlen & Hall & Ho & Hrz & Hn).
  cbn [original_len_total resized_len_total image_count stdout] in *.
  rewrite Z.add_0_l in Ho, Hrz, Hn. rewrite Ho, Hrz, Hn.
  destruct records as [| record records].
  - cbn. discriminate.
  - rewrite !truediv_nonzero by (cbn [length]; lia).
    intros [= <-]. exists (record :: records), lines.
    cbn [stdout]. rewrite Hout, <- app_assoc. split_and!; auto.
Qed.

End Stats.

Lemma summary_reports_means_witness :
  exists lines,
    stdout (process_tf_record_file "in/s1" "out/s1" Sample.start).2
    = lines ++ [LineSummary "in/s1" 2
                  (per_thousand (inject_Z 16 / inject_Z 2))
                  (per_thousand (inject_Z 24 / inject_Z 2))] /\
    length lines = 2%nat.
Proof.
  destruct (summary_reports_means (rt := Sample.runtime) "in/s1" "out/s1" Sample.start
              (process_tf_record_file "in/s1" "out/s1" Sample.start).2)
    as (records & lines & Hread & _ & Hlen & _ & Hout).
  - vm_compute. reflexivity.
  - assert (Hr : Some records = Some ["fox"; "fox"])
      by (rewrite <- Hread; vm_compute; reflexivity).
    injection Hr as ->. exists lines. split; [| exact Hlen].
    rewrite Hout. reflexivity.
Defined.

(** ** One record, again *)

Section Fields.
Context {rt : Runtime}.

Lemma getitem_0 {A} (l : list A) :
  getitem l 0 = match l with x :: _ => Ok x | [] => Raise IndexError end.
Proof. destruct l; reflexivity. Qed.

(** X11. A record that parses is accepted by lines 97-107 exactly when
    its example has a first value for each of the seven features read with
    [value[0]]; the four bounding-box lists may be absent or empty.  If one
    of the seven is absent, empty or of another kind, IndexError is
    raised. *)
Theorem parse_record_needs_scalars (record_string : bytes) (example : Example) :
  ParseFromString record_string = Some example ->
  (scalars_present example -> exists p, parse_record record_string = Ok p) /\
  (~ scalars_present example -> parse_record record_string = Raise IndexError).
Proof.
  intros Hparse. unfold scalars_present, parse_record. rewrite Hparse.
  cbn [try_op rbind]. rewrite !getitem_0.
  destruct (bytes_list_value (feature example "image/filename"));
    [split; [intros (H & _); contradiction | reflexivity] |].
  destruct (int64_list_value (feature example "image/class/label"));
    [split; [intros (_ & H & _); contradiction | reflexivity] |].
  destruct (bytes_list_value (feature example "image/class/synset"));
    [split; [intros (_ & _ & H & _); contradiction | reflexivity] |].
  destruct (bytes_list_value (feature example "image/class/text"));
    [split; [intros (_ & _ & _ & H & _); contradiction | reflexivity] |].
  destruct (int64_list_value (feature example "image/height"));
    [split; [intros (_ & _ & _ & _ & H & _); contradiction | reflexivity] |].
  destruct (int64_list_value (feature example "image/width"));
    [split; [intros (_ & _ & _ & _ & _ & H & _); contradiction | reflexivity] |].
  destruct (bytes_list_value (feature example "image/encoded"));
    [split; [intros (_ & _ & _ & _ & _ & _ & H); contradiction | reflexivity] |].
  cbn [rbind]. split; [eauto |].
  intros Hnot. exfalso. apply Hnot. split_and!; discriminate.
Qed.

Lemma parse_record_fields record_string p :
  parse_record record_string = Ok p ->
  exists example,
    ParseFromString record_string = Some example /\
    getitem (bytes_list_value (feature example "image/filename")) 0
      = Ok (filename p) /\
    getitem (int64_list_value (feature example "image/class/label")) 0
      = Ok (label p) /\
    getitem (bytes_list_value (feature example "image/class/synset")) 0
      = Ok (synset p) /\
    getitem (bytes_list_value (feature example "image/class/text")) 0
      = Ok (human p).
Proof.
  unfold parse_record.
  destruct (ParseFromString record_string) as [example |] eqn:Hparse;
    cbn [try_op rbind]; [| discriminate].
  repeat match goal with
         | |- context [rbind (getitem ?l 0) _] =>
             let E := fresh "E" in
             destruct (getitem l 0) eqn:E; cbn [rbind]; try discriminate
         end.
  intros [= <-]. exists example. cbn.
  repeat split; (reflexivity || assumption).
Qed.

(** X13. The example written for a record keeps the first class label,
    synset and text of the input record; its file name is the basename of
    the input's file name, and its image is the bytes the encoder returned
    for the decoded and resized input image. *)
Theorem metadata_pass_through input output t record_string w t' w' :
  record_step input output t record_string w = (Ok t', w') ->
  exists example_in example_out name label synset text encoded image resized_image
         resized_encoded,
    ParseFromString record_string = Some example_in /\
    fs w' = alter (fun rs => rs ++ [SerializeToString example_out]) output (fs w) /\
    getitem (bytes_list_value (feature example_in "image/filename")) 0 = Ok name /\
    getitem (int64_list_value (feature example_in "image/class/label")) 0 = Ok label /\
    getitem (bytes_list_value (feature example_in "image/class/synset")) 0 = Ok synset /\
    getitem (bytes_list_value (feature example_in "image/class/text")) 0 = Ok text /\
    getitem (bytes_list_value (feature example_in "image/encoded")) 0 = Ok encoded /\
    decode_jpeg encoded = Some image /\
    (exists h w, resize_images image h w = Some resized_image) /\
    encode_jpeg resized_image = Some resized_encoded /\
    feature example_out "image/filename" = bytes_list [basename name] /\
    feature example_out "image/class/label" = int64_list [label] /\
    feature example_out "image/class/synset" = bytes_list [synset] /\
    feature example_out "image/class/text" = bytes_list [text] /\
    feature example_out "image/encoded" = bytes_list [resized_encoded].
Proof.
  intros Hstep.
  destruct (record_step_inv _ _ _ _ _ _ _ Hstep)
    as (p & r & name & example & Hp & Hr & _ & Hex & Hfs & _).
  destruct (parse_record_fields _ _ Hp) as (example_in & Hin & Hf & Hl & Hs & Ht).
  destruct (parse_record_inv _ _ Hp) as (example_in' & Hin' & _ & _ & _ & _ & _ & _ & He).
  rewrite Hin in Hin'. injection Hin' as <-.
  destruct (resize_image_inv _ _ Hr) as (_ & _ & image & resized_image & Hd & Hrs & Hen).
  exists example_in, example, (filename p), (label p), (synset p), (human p),
    (original_encoded p), image, resized_image, (resized_encoded r).
  apply convert_inv in Hex. subst example.
  split_and!; try assumption; try reflexivity. eauto.
Qed.

End Fields.

Lemma parse_record_needs_scalars_witness :
  (exists p, parse_record (rt := Sample64.runtime) "fox" = Ok p) /\
  parse_record (rt := Sample64.runtime) "bare" = Raise IndexError.
Proof.
  split.
  - apply (parse_record_needs_scalars (rt := Sample64.runtime) "fox"
             (Sample.fox 100 100 "JFIF:fox") eq_refl).
    unfold scalars_present. split_and!; vm_compute; discriminate.
  - apply (parse_record_needs_scalars (rt := Sample64.runtime) "bare" ∅ eq_refl).
    intros (H & _). apply H. reflexivity.
Defined.

Lemma metadata_pass_through_witness :
  exists w' example_out,
    fs w' = alter (fun rs => rs ++ [SerializeToString example_out]) "out/s0"
              (fs Sample.opened) /\
    feature example_out "image/filename" = bytes_list ["fox.JPEG"] /\
    feature example_out "image/class/label" = int64_list [278] /\
    feature example_out "image/encoded" = bytes_list ["JFIF:resized"].
Proof.
  destruct (metadata_pass_through (rt := Sample.runtime) "in/s0" "out/s0" (Totals 0 0 0)
              "fox" Sample.opened (Totals 8 12 1)
              (record_step "in/s0" "out/s0" (Totals 0 0 0) "fox" Sample.opened).2)
    as (example_in & example_out & name & label & synset & text & encoded & image
        & resized_image & resized_encoded & Hin & Hfs & Hname & Hlabel & _ & _
        & Henc & Hdec & _ & Hen & Hf & Hl & _ & _ & He).
  - vm_compute. reflexivity.
  - exists (record_step "in/s0" "out/s0" (Totals 0 0 0) "fox" Sample.opened).2,
      example_out.
    injection Hin as <-.
    assert (name = "train/n02119789/fox.JPEG") as ->
      by (vm_compute in Hname; congruence).
    assert (label = 278) as -> by (vm_compute in Hlabel; congruence).
    assert (encoded = "JFIF:fox") as -> by (vm_compute in Henc; congruence).
    assert (resized_encoded = "JFIF:resized") as ->
      by (cbn in Hen; congruence).
    split_and!; assumption.
Defined.

(** ** Output paths *)

Lemma after_last_sep_spec (p : string) :
  match after_last_sep p with
  | Some t => has_sep t = false /\ has_sep p = true
  | None => has_sep p = false
  end.
Proof.
  induction p as [| c r IH]; cbn [after_last_sep has_sep]; [reflexivity |].
  destruct (after_last_sep r) as [t |].
  - destruct IH as (Ht & Hr). rewrite Hr, orb_true_r. auto.
  - rewrite IH, orb_false_r. destruct (Ascii.eqb c sep); auto.
Qed.

Lemma basename_no_sep (p : string) : has_sep (basename p) = false.
Proof.
  unfold basename. pose proof (after_last_sep_spec p) as H.
  destruct (after_last_sep p); cbn; tauto.
Qed.

Lemma after_last_sep_app (a b : string) :
  has_sep b = false -> after_last_sep (a +:+ String sep b) = Some b.
Proof.
  intros Hb. pose proof (after_last_sep_spec b) as H.
  induction a as [| c a IH].
  - change (EmptyString +:+ String sep b) with (String sep b).
    cbn [after_last_sep].
    destruct (after_last_sep b); [destruct H; congruence | reflexivity].
  - change (String c a +:+ String sep b) with (String c (a +:+ String sep b)).
    cbn [after_last_sep]. rewrite IH. reflexivity.
Qed.

Lemma endswith_sep_inv (a : string) :
  endswith_sep a = true -> exists a', a = a' +:+ String sep EmptyString.
Proof.
  induction a as [| c a IH]; cbn [endswith_sep]; [discriminate |].
  destruct a as [| c' a].
  - intros Hc. apply Ascii.eqb_eq in Hc. subst c. exists EmptyString. reflexivity.
  - intros H. destruct (IH H) as (a' & Ha'). rewrite Ha'.
    exists (String c a'). reflexivity.
Qed.

Lemma append_assoc (a b c : string) : (a +:+ b) +:+ c = a +:+ (b +:+ c).
Proof.
  induction a as [| x a IH]; [reflexivity |].
  change (String x ((a +:+ b) +:+ c) = String x (a +:+ (b +:+ c))).
  rewrite IH. reflexivity.
Qed.

Lemma no_sep_not_absolute (b : string) : has_sep b = false -> startswith_sep b = false.
Proof.
  destruct b as [| c b]; cbn; [reflexivity |].
  destruct (Ascii.eqb c sep); [discriminate | reflexivity].
Qed.

(** X14. The output file of a shard is named after the shard and lies
    under the output directory: [join(output_dir, basename(input))] starts
    with [output_dir], and its basename is the basename of [input], which
    holds no separator. *)
Theorem output_path_keeps_basename (output_dir input : string) :
  basename (join output_dir (basename input)) = basename input /\
  has_sep (basename input) = false /\
  exists rest, join output_dir (basename input) = output_dir +:+ rest.
Proof.
  pose proof (basename_no_sep input) as Hb.
  set (b := basename input) in *. clearbody b.
  unfold join. rewrite (no_sep_not_absolute b Hb).
  split; [| split; [exact Hb |]].
  - destruct (String.eqb_spec output_dir "") as [-> | Hne]; cbn [orb].
    + change (EmptyString +:+ b) with b. unfold basename.
      pose proof (after_last_sep_spec b) as H.
      destruct (after_last_sep b); [destruct H; congruence | reflexivity].
    + destruct (endswith_sep output_dir) eqn:Hend.
      * destruct (endswith_sep_inv _ Hend) as (a' & ->).
        rewrite append_assoc.
        change (String sep EmptyString +:+ b) with (String sep b).
        unfold basename. rewrite (after_last_sep_app a' b Hb). reflexivity.
      * unfold basename. rewrite (after_last_sep_app output_dir b Hb). reflexivity.
  - destruct (String.eqb output_dir "" || endswith_sep output_dir); eauto.
Qed.

(** ** The worker always ends *)

Lemma halts_lift {A} (r : result A) : r <> Diverge -> halts (lift r).
Proof. intros Hr w. exact Hr. Qed.

Lemma halts_bind {A B} (c : M A) (k : A -> M B) :
  halts c -> (forall a, halts (k a)) -> halts (bind c k).
Proof.
  intros Hc Hk w. unfold bind. pose proof (Hc w) as Hw.
  destruct (c w) as [[a | e |] w1]; cbn [fst] in *;
    [apply Hk | discriminate | contradiction].
Qed.

Lemma halts_for_each {A S} (body : S -> A -> M S) (xs : list A) :
  (forall s x, halts (body s x)) -> forall s, halts (for_each body s xs).
Proof.
  intros Hbody. induction xs as [| x xs IH]; intros s; cbn [for_each].
  - intros w. discriminate.
  - apply halts_bind; [apply Hbody | exact IH].
Qed.

Lemma rbind_halts {A B} (r : result A) (k : A -> result B) :
  r <> Diverge -> (forall a, k a <> Diverge) -> rbind r k <> Diverge.
Proof. intros Hr Hk. destruct r; cbn; [apply Hk | discriminate | contradiction]. Qed.

Lemma getitem_halts {A} (l : list A) (i : Z) : getitem l i <> Diverge.
Proof.
  unfold getitem. destruct (_ || _); [discriminate |].
  destruct (l !! _); discriminate.
Qed.

Lemma try_op_halts {A} (e : exn) (o : option A) : try_op e o <> Diverge.
Proof. destruct o; discriminate. Qed.

Lemma new_size_halts (original : Z) : new_size original <> Diverge.
Proof.
  unfold new_size, int_mul_float, float_of_int.
  destruct (binary_normalize prec emax original 0 false); cbn [rbind];
    try discriminate;
    match goal with |- int_of_float ?x <> _ => destruct x; discriminate end.
Qed.

Section Halts.
Context {rt : Runtime}.

Lemma parse_record_halts record_string : parse_record record_string <> Diverge.
Proof.
  unfold parse_record.
  repeat (apply rbind_halts;
          [first [apply getitem_halts | apply try_op_halts] | intros ?]).
  discriminate.
Qed.

Lemma resize_image_halts p : resize_image p <> Diverge.
Proof.
  unfold resize_image.
  repeat (apply rbind_halts;
          [first [apply new_size_halts | apply try_op_halts] | intros ?]).
  discriminate.
Qed.

Lemma convert_halts filename image_buffer label synset human xmin ymin xmax ymax
    height width :
  _convert_to_example filename image_buffer label synset human
    xmin ymin xmax ymax height width <> Diverge.
Proof.
  unfold _convert_to_example, _int64_feature.
  repeat match goal with
         | |- context [forallb ?f ?l] => destruct (forallb f l)
         end; cbn [rbind]; discriminate.
Qed.

Lemma record_step_halts input output t record_string :
  halts (record_step input output t record_string).
Proof.
  unfold record_step. cbv zeta.
  apply halts_bind; [apply halts_lift, parse_record_halts | intros p].
  apply halts_bind; [apply halts_lift, resize_image_halts | intros r].
  apply halts_bind; [apply halts_lift, try_op_halts | intros name].
  apply halts_bind; [intros w; discriminate | intros _].
  apply halts_bind; [apply halts_lift, convert_halts | intros example].
  apply halts_bind; [intros w; discriminate | intros _].
  intros w. discriminate.
Qed.

Lemma process_halts input output : halts (process_tf_record_file input output).
Proof.
  unfold process_tf_record_file.
  apply halts_bind; [intros w; discriminate | intros _].
  apply halts_bind; [intros w; apply try_op_halts | intros records].
  apply halts_bind; [apply halts_for_each; intros; apply record_step_halts | intros t].
  apply halts_bind; [apply halts_lift; unfold truediv; destruct (_ =? _); discriminate
                    | intros m1].
  apply halts_bind; [apply halts_lift; unfold truediv; destruct (_ =? _); discriminate
                    | intros m2].
  intros w. discriminate.
Qed.

Lemma shard_step_halts rank names output_dir i :
  halts (shard_step rank names output_dir i).
Proof.
  unfold shard_step.
  apply halts_bind; [apply halts_lift, getitem_halts | intros input].
  apply halts_bind; [intros w; discriminate | intros _].
  apply process_halts.
Qed.

(** X15. With [size >= 1] and [rank >= 0] the worker ends, normally or
    with an exception, within as many iterations as there are shards,
    whatever the files hold. *)
Theorem worker_ends (rank size : Z) (input_files output_dir : string) (w : world) :
  1 <= size -> 0 <= rank ->
  (worker (length (glob input_files w)) rank size input_files output_dir w).1
    <> Diverge.
Proof.
  intros Hsize Hrank.
  destruct (worker_runs_schedule rank size input_files output_dir w Hsize Hrank)
    as (l & _ & ->).
  apply halts_for_each. intros s j. apply shard_step_halts.
Qed.

End Halts.

Lemma worker_ends_witness :
  (worker 5 1 2 "in/*" "out" Sample.start).1 = Raise ZeroDivisionError /\
  (worker 5 1 2 "in/*" "out" Sample.start).1 <> Diverge.
Proof.
  split; [vm_compute; reflexivity |].
  assert (Hlen : length (glob (rt := Sample.runtime) "in/*" Sample.start) = 5%nat)
    by (vm_compute; reflexivity).
  pose proof (worker_ends (rt := Sample.runtime) 1 2 "in/*" "out" Sample.start
                ltac:(lia) ltac:(lia)) as Hends.
  rewrite Hlen in Hends. exact Hends.
Defined.

(** ** A negative rank *)

Section NegativeRank.
Context {rt : Runtime}.

Lemma print_grows l : respects stdout_grows (print l).
Proof. intros w. exists [l]. reflexivity. Qed.

Lemma record_step_grows input output t record_string :
  respects stdout_grows (record_step input output t record_string).
Proof.
  unfold record_step. cbv zeta.
  r_bind; [r_lift | intros p].
  r_bind; [r_lift | intros r].
  r_bind; [r_lift | intros name].
  r_bind; [apply print_grows | intros _].
  r_bind; [r_lift | intros example].
  r_bind; [| intros _; r_ret].
  intros w. exists []. cbn. symmetry. apply app_nil_r.
Qed.

Lemma process_grows input output :
  respects stdout_grows (process_tf_record_file input output).
Proof.
  unfold process_tf_record_file.
  r_bind; [intros w; exists []; cbn; symmetry; apply app_nil_r | intros _].
  r_bind; [intros w; reflexivity | intros records].
  r_bind; [| intros t].
  { apply respects_for_each; try apply _. intros s x. apply record_step_grows. }
  r_bind; [r_lift | intros m1].
  r_bind; [r_lift | intros m2].
  apply print_grows.
Qed.

Lemma shard_step_grows rank names output_dir i :
  respects stdout_grows (shard_step rank names output_dir i).
Proof.
  unfold shard_step.
  r_bind; [r_lift | intros input].
  r_bind; [apply print_grows | intros _; apply process_grows].
Qed.

Lemma worker_loop_grows rank size names output_dir : forall fuel i,
  respects stdout_grows (worker_loop fuel rank size names output_dir i).
Proof.
  induction fuel as [| fuel IH]; intros i; cbn [worker_loop];
    destruct (i <? Z.of_nat (length names)); try r_ret; try r_lift.
  r_bind; [apply shard_step_grows | intros _; apply IH].
Qed.

Lemma getitem_negative {A} (l : list A) (i : Z) :
  - Z.of_nat (length l) <= i < 0 ->
  exists x, getitem l i = Ok x /\ l !! Z.to_nat (Z.of_nat (length l) + i) = Some x.
Proof.
  intros Hi. unfold getitem. cbv zeta.
  assert (H1 : (i <? 0) = true) by lia.
  assert (H2 : (i + Z.of_nat (length l) <? 0) = false) by lia.
  assert (H3 : (Z.of_nat (length l) <=? i + Z.of_nat (length l)) = false) by lia.
  rewrite H1, H2, H3. cbn [orb].
  replace (Z.of_nat (length l) + i) with (i + Z.of_nat (length l)) by lia.
  destruct (l !! Z.to_nat (i + Z.of_nat (length l))) as [x |] eqn:Hx;
    [exists x; split; reflexivity |].
  apply lookup_ge_None in Hx. lia.
Qed.

(** X16. A negative rank is not rejected.  With [-N <= rank < 0] the
    worker starts on the shard of index [N + rank], counted from the end
    of the sorted list as Python indexes a list, before anything else. *)
Theorem negative_rank_counts_from_end (fuel : nat) (rank size : Z)
    (input_files output_dir : string) (w : world) :
  - Z.of_nat (length (glob input_files w)) <= rank < 0 ->
  exists input rest,
    sorted (glob input_files w)
      !! Z.to_nat (Z.of_nat (length (glob input_files w)) + rank) = Some input /\
    started (stdout (worker (S fuel) rank size input_files output_dir w).2)
      = started (stdout w) ++ input :: rest.
Proof.
  intros Hrank. unfold worker.
  set (names := sorted (glob input_files w)).
  assert (HN : length (glob input_files w) = length names)
    by (unfold names; rewrite sorted_length; reflexivity).
  rewrite HN in *. clearbody names.
  destruct (getitem_negative names rank Hrank) as (input & Hget & Hlook).
  cbn [worker_loop].
  destruct (Z.ltb_spec rank (Z.of_nat (length names))); [| lia].
  unfold bind at 1, shard_step, bind at 1, lift. rewrite Hget.
  unfold bind at 1, print at 1.
  set (w1 := {| fs := fs w; stdout := stdout w ++ [_] |}).
  set (out := join output_dir (basename input)).
  assert (Hresp : respects stdout_grows
            (process_tf_record_file input out ;;;
             worker_loop fuel rank size names output_dir (rank + size))).
  { r_bind; [apply process_grows | intros _; apply worker_loop_grows]. }
  destruct (Hresp w1) as (extra & Hextra).
  exists input, (started extra). split; [exact Hlook |].
  unfold bind in Hextra.
  destruct (process_tf_record_file input out w1) as [[[] | e |] w2];
    cbn [snd] in *; rewrite Hextra; unfold w1; cbn [stdout];
    unfold started; rewrite !omap_app; cbn; rewrite <- app_assoc; reflexivity.
Qed.

End NegativeRank.

Lemma negative_rank_counts_from_end_witness :
  exists rest,
    started (stdout (worker 1 (-1) 2 "in/*" "out" Sample.start).2) = "in/s4" :: rest.
Proof.
  destruct (negative_rank_counts_from_end (rt := Sample.runtime) 0 (-1) 2
              "in/*" "out" Sample.start) as (input & rest & Hin & Hst).
  - assert (Hlen : length (glob (rt := Sample.runtime) "in/*" Sample.start) = 5%nat)
      by (vm_compute; reflexivity).
    rewrite Hlen. lia.
  - exists rest. rewrite Hst.
    assert (Some input = Some "in/s4") as [= ->]
      by (rewrite <- Hin; vm_compute; reflexivity).
    reflexivity.
Defined.

(** X17. A record whose file name is not valid UTF-8 stops the shard:
    the name is decoded only to be printed, after the image has been
    resized, and UnicodeDecodeError is raised before anything is printed or
    written for the record. *)
Theorem undecodable_filename_raises {rt : Runtime} input output t record_string w p r :
  parse_record record_string = Ok p ->
  resize_image p = Ok r ->
  bytes_decode (filename p) = None ->
  record_step input output t record_string w = (Raise UnicodeDecodeError, w).
Proof.
  intros Hp Hr Hname. unfold record_step, bind, lift.
  rewrite Hp, Hr, Hname. reflexivity.
Qed.

Lemma undecodable_filename_raises_witness :
  record_step (rt := Sample64.runtime) "in/s0" "out/s0" (Totals 0 0 0) "odd"
    Sample.opened = (Raise UnicodeDecodeError, Sample.opened).
Proof.
  apply (undecodable_filename_raises (rt := Sample64.runtime)
           "in/s0" "out/s0" (Totals 0 0 0) "odd" Sample.opened
           (Parsed (String (ascii_of_nat 255) EmptyString) 278 "n02119789" "kit fox"
              [Sample.quarter; Sample.half] [Sample.quarter; Sample.quarter]
              [Sample.half; Sample.half] [Sample.half; Sample.quarter]
              100 100 "JFIF:fox")
           (Resized "JFIF:resized" 300 300));
    vm_compute; reflexivity.
Defined.
